(** * openscope flight plan route: RouteModel and WaypointModel

    A shallow embedding of
    [src/assets/scripts/client/aircraft/FlightManagementSystem/RouteModel.js]
    and of the WaypointModel class, with the properties of the route string
    grammar, of the navigation state and of the waypoint life cycle.

    JavaScript strings are [string], arrays are [list], [undefined] results
    of lodash helpers are [option], integers are [Z], and a method that may
    throw or that mutates [this] runs in a small state and exception monad. *)

From Stdlib Require Import ZArith Ascii String List Lia.
From stdpp Require Import base list strings pretty.

Local Open Scope Z_scope.

(** ** JavaScript values, errors and built-ins *)

Module Js.

Inductive Error : Type :=
| TypeError (message : string)
| ReferenceError (message : string)
| LookupError (message : string).

(** Outcome of an expression that may throw. *)
Inductive result (A : Type) : Type :=
| Ok (a : A)
| Throw (e : Error).
Arguments Ok {A} a.
Arguments Throw {A} e.

Definition bind {A B} (r : result A) (k : A -> result B) : result B :=
  match r with
  | Ok a => k a
  | Throw e => Throw e
  end.

(** The values a caller can hand to a function that expects a string. *)
Inductive Value : Type :=
| Undefined
| Null
| Boolean (b : bool)
| Number (n : Z)
| Str (s : string)
| Object.

Definition typeof (v : Value) : string :=
  match v with
  | Undefined => "undefined"
  | Null => "object"
  | Boolean _ => "boolean"
  | Number _ => "number"
  | Str _ => "string"
  | Object => "object"
  end.

(** [Math.min()] is [Infinity] and [Math.max()] is [-Infinity]. *)
Inductive Num : Type :=
| NegInfinity
| Finite (z : Z)
| Infinity.

Definition num_min (a b : Num) : Num :=
  match a, b with
  | NegInfinity, _ | _, NegInfinity => NegInfinity
  | Infinity, x | x, Infinity => x
  | Finite x, Finite y => Finite (Z.min x y)
  end.

Definition num_max (a b : Num) : Num :=
  match a, b with
  | Infinity, _ | _, Infinity => Infinity
  | NegInfinity, x | x, NegInfinity => x
  | Finite x, Finite y => Finite (Z.max x y)
  end.

Definition Math_min (args : list Z) : Num :=
  fold_right (fun z acc => num_min (Finite z) acc) Infinity args.

Definition Math_max (args : list Z) : Num :=
  fold_right (fun z acc => num_max (Finite z) acc) NegInfinity args.

(** [strip_prefix p s] is the rest of [s] behind [p] when [s] starts
    with [p]. *)
Fixpoint strip_prefix (p s : string) : option string :=
  match p with
  | EmptyString => Some s
  | String a p' =>
      match s with
      | EmptyString => None
      | String b s' => if Ascii.eqb a b then strip_prefix p' s' else None
      end
  end.

Fixpoint indexOf_from (s needle : string) (i : Z) : Z :=
  match strip_prefix needle s with
  | Some _ => i
  | None =>
      match s with
      | EmptyString => -1
      | String _ s' => indexOf_from s' needle (i + 1)
      end
  end.

(** [s.indexOf(needle)]: position of the first occurrence, or -1. *)
Definition indexOf (s needle : string) : Z := indexOf_from s needle 0.

Definition push_front (c : ascii) (pieces : list string) : list string :=
  match pieces with
  | [] => [String c EmptyString]
  | piece :: rest => String c piece :: rest
  end.

(** Left-to-right scan of [s.split(sep)] for a separator that is not
    empty; [skip] counts the characters of a separator occurrence that are
    still to be passed over. *)
Fixpoint split_from (sep : string) (skip : nat) (s : string) : list string :=
  match s with
  | EmptyString => [EmptyString]
  | String c s' =>
      match skip with
      | S k => split_from sep k s'
      | O =>
          match strip_prefix sep s with
          | Some _ => EmptyString :: split_from sep (String.length sep - 1) s'
          | None => push_front c (split_from sep 0 s')
          end
      end
  end.

Fixpoint characters (s : string) : list string :=
  match s with
  | EmptyString => []
  | String c s' => String c EmptyString :: characters s'
  end.

(** [s.split(sep)]; the empty separator cuts between all characters. *)
Definition split (s sep : string) : list string :=
  match sep with
  | EmptyString => characters s
  | String _ _ => split_from sep 0 s
  end.

(** [xs.join(sep)] *)
Fixpoint join (xs : list string) (sep : string) : string :=
  match xs with
  | [] => ""
  | x :: rest =>
      match rest with
      | [] => x
      | _ :: _ => x +:+ sep +:+ join rest sep
      end
  end.

Fixpoint appendAll (xs : list string) : string :=
  match xs with
  | [] => ""
  | x :: rest => x +:+ appendAll rest
  end.

(** [s.replace(pattern, replacement)] for a string pattern: the first
    occurrence only. *)
Fixpoint replace (s pattern replacement : string) : string :=
  match strip_prefix pattern s with
  | Some rest => replacement +:+ rest
  | None =>
      match s with
      | EmptyString => ""
      | String c s' => String c (replace s' pattern replacement)
      end
  end.

(** [xs.splice(start, deleteCount)] leaves [fst] in the array and returns
    [snd]; a negative [deleteCount] removes nothing. *)
Definition splice {A} (xs : list A) (start deleteCount : Z) : list A * list A :=
  let s := Z.to_nat start in
  let n := Z.to_nat deleteCount in
  (take s xs ++ drop (s + n) xs, take n (drop s xs)).

(** A [for (let i = start; ...; i++)] loop that runs [count] times. *)
Fixpoint for_loop {S : Type} (count : nat) (i : nat) (body : nat -> S -> S) (s : S) : S :=
  match count with
  | O => s
  | Datatypes.S count' => for_loop count' (Datatypes.S i) body (body i s)
  end.

(** The same loop written over the elements: [body previous current]
    for each element behind [previous]. *)
Fixpoint fold_adjacent {A S : Type} (body : A -> A -> S -> S) (previous : A) (xs : list A) (s : S) : S :=
  match xs with
  | [] => s
  | x :: rest => fold_adjacent body x rest (body previous x s)
  end.

Definition isWhitespace (c : ascii) : bool :=
  bool_decide (c ∈ [" "; "009"; "010"; "011"; "012"; "013"]%char).

Fixpoint hasWhitespace (s : string) : bool :=
  match s with
  | EmptyString => false
  | String c s' => isWhitespace c || hasWhitespace s'
  end.

Fixpoint hasChar (c : ascii) (s : string) : bool :=
  match s with
  | EmptyString => false
  | String c' s' => Ascii.eqb c c' || hasChar c s'
  end.

Fixpoint hasSpace (s : string) : bool :=
  match s with
  | EmptyString => false
  | String c s' => bool_decide (c = " "%char) || hasSpace s'
  end.

(** A string without a space character; the only input
    [_divideRouteStringIntoSegments] lets through its two guards. *)
Definition isSpaceFreeString (v : Value) : bool :=
  match v with
  | Str s => negb (hasSpace s)
  | _ => false
  end.

(** An interpolated value in a template literal. *)
Definition interpolate (v : option string) : string :=
  match v with
  | Some s => s
  | None => "undefined"
  end.

End Js.

(** ** lodash helpers *)

Module Lodash.

Definition _first {A} (xs : list A) : option A := head xs.

Definition _last {A} (xs : list A) : option A := last xs.

Fixpoint _chunk_fuel {A} (fuel : nat) (xs : list A) (size : nat) : list (list A) :=
  match fuel with
  | O => []
  | S fuel' =>
      match xs with
      | [] => []
      | _ :: _ => take size xs :: _chunk_fuel fuel' (drop size xs) size
      end
  end.

(** [_chunk(xs, size)]: groups of [size] elements, the last one with what
    is left; no group at all for a [size] below one. *)
Definition _chunk {A} (xs : list A) (size : nat) : list (list A) :=
  match size with
  | O => []
  | S _ => _chunk_fuel (length xs) xs size
  end.

Fixpoint _findIndex_from {A} (xs : list A) (predicate : A -> bool) (i : Z) : Z :=
  match xs with
  | [] => -1
  | x :: rest => if predicate x then i else _findIndex_from rest predicate (i + 1)
  end.

(** [_findIndex(xs, predicate)]: index of the first match, or -1. *)
Definition _findIndex {A} (xs : list A) (predicate : A -> bool) : Z :=
  _findIndex_from xs predicate 0.

Definition _without (xs : list Z) (value : Z) : list Z :=
  filter (fun x => x <> value) xs.

(** [_isNil(value)]: null or undefined. *)
Definition _isNil {A} (value : option A) : bool :=
  match value with
  | Some _ => false
  | None => true
  end.

(** [_map] over [undefined] is the empty array. *)
Definition _map {A B} (xs : option (list A)) (f : A -> B) : list B :=
  match xs with
  | Some l => map f l
  | None => []
  end.

End Lodash.

(** ** WaypointModel *)

Module Waypoint.
Import Js.

(** Modelled from the spec: StaticPositionModel is not among the sources;
    the position provider exposes a relative position, a pair of signed
    distances in kilometres north and east, here in metres. *)
Record StaticPositionModel : Type := {
  relativePosition : Z * Z
}.

(** The properties the constructor declares, in its order.  The inbound
    heading is in radians in the source; here in thousandths. *)
Record WaypointModel : Type := {
  altitudeMaximum : Z;
  altitudeMinimum : Z;
  isHold : bool;
  speedMaximum : Z;
  speedMinimum : Z;
  timer : Z;
  _holdingPatternInboundHeading : Z;
  _isFlyOverWaypoint : bool;
  _isVector : bool;
  _legLength : string;
  _name : string;
  _positionModel : option StaticPositionModel;
  _turnDirection : string
}.

(** The values the constructor writes before it calls [init]. *)
Definition defaults : WaypointModel := {|
  altitudeMaximum := -1;
  altitudeMinimum := -1;
  isHold := false;
  speedMaximum := -1;
  speedMinimum := -1;
  timer := -999;
  _holdingPatternInboundHeading := -1;
  _isFlyOverWaypoint := false;
  _isVector := false;
  _legLength := "";
  _name := "";
  _positionModel := None;
  _turnDirection := ""
|}.

Definition hasAltitudeRestriction (this : WaypointModel) : bool :=
  bool_decide (altitudeMaximum this <> -1) || bool_decide (altitudeMinimum this <> -1).

Definition hasSpeedRestriction (this : WaypointModel) : bool :=
  bool_decide (speedMaximum this <> -1) || bool_decide (speedMinimum this <> -1).

Definition hasRestriction (this : WaypointModel) : bool :=
  hasAltitudeRestriction this || hasSpeedRestriction this.

Definition positionModel (this : WaypointModel) : option StaticPositionModel :=
  _positionModel this.

Definition isFlyOverWaypoint (this : WaypointModel) : bool := _isFlyOverWaypoint this.

Definition isVector (this : WaypointModel) : bool := _isVector this.

(** [destroy()]: ten assignments; the properties it does not assign keep
    the value they had. *)
Definition destroy (this : WaypointModel) : WaypointModel := {|
  _name := "";
  _turnDirection := "";
  _legLength := "";
  _positionModel := None;
  isHold := false;
  speedMaximum := -1;
  speedMinimum := -1;
  altitudeMaximum := -1;
  altitudeMinimum := -1;
  timer := -999;
  _holdingPatternInboundHeading := _holdingPatternInboundHeading this;
  _isFlyOverWaypoint := _isFlyOverWaypoint this;
  _isVector := _isVector this
|}.

Definition updateWaypointWithHoldProps
    (inboundHeading : Z) (turnDirection legLength : string)
    (this : WaypointModel) : WaypointModel := {|
  isHold := true;
  _holdingPatternInboundHeading := inboundHeading;
  _turnDirection := turnDirection;
  _legLength := legLength;
  altitudeMaximum := altitudeMaximum this;
  altitudeMinimum := altitudeMinimum this;
  speedMaximum := speedMaximum this;
  speedMinimum := speedMinimum this;
  timer := timer this;
  _isFlyOverWaypoint := _isFlyOverWaypoint this;
  _isVector := _isVector this;
  _name := _name this;
  _positionModel := _positionModel this
|}.

Definition with_name (v : string) (this : WaypointModel) : WaypointModel := {|
  _name := v;
  altitudeMaximum := altitudeMaximum this;
  altitudeMinimum := altitudeMinimum this;
  isHold := isHold this;
  speedMaximum := speedMaximum this;
  speedMinimum := speedMinimum this;
  timer := timer this;
  _holdingPatternInboundHeading := _holdingPatternInboundHeading this;
  _isFlyOverWaypoint := _isFlyOverWaypoint this;
  _isVector := _isVector this;
  _legLength := _legLength this;
  _positionModel := _positionModel this;
  _turnDirection := _turnDirection this
|}.

(** Resolution of an identifier read inside an accessor: the accessor's
    own parameters first, then [enclosing], what the scopes around the
    class body bind to a string: the module scope, whose only bindings
    are the imports of lines 1 to 8 and the class, and behind it the
    host's global object. *)
Definition resolveIdentifier
    (parameters : list (string * string)) (enclosing : string -> option string)
    (identifier : string) : option string :=
  match list_find (fun p => bool_decide (p.1 = identifier)) parameters with
  | Some (_, p) => Some p.2
  | None => enclosing identifier
  end.

(** [set name(nameUpdate) { this._name = name; }] in strict mode: reading
    an identifier nothing binds throws before the assignment. *)
Definition set_name
    (enclosing : string -> option string) (nameUpdate : string)
    (this : WaypointModel) : result unit * WaypointModel :=
  match resolveIdentifier [("nameUpdate", nameUpdate)] enclosing "name" with
  | Some v => (Ok tt, with_name v this)
  | None => (Throw (ReferenceError "name is not defined"), this)
  end.

(** [get relativePosition()]: reads a property of [_positionModel], which
    throws when the position is null. *)
Definition get_relativePosition (this : WaypointModel) : result (Z * Z) :=
  match _positionModel this with
  | Some position => Ok (relativePosition position)
  | None =>
      Throw (TypeError "Cannot read properties of null (reading 'relativePosition')")
  end.

Section DisplayName.

(** The two constants of constants/navigation/routeConstants that the
    name getter reads; their values are not among the sources. *)
Variable RNAV_WAYPOINT_PREFIX : string.
Variable RNAV_WAYPOINT_DISPLAY_NAME : string.

(** [get name()] *)
Definition get_name (this : WaypointModel) : string :=
  if bool_decide (indexOf (_name this) RNAV_WAYPOINT_PREFIX <> -1)
  then RNAV_WAYPOINT_DISPLAY_NAME
  else _name this.

End DisplayName.

End Waypoint.

(** ** LegModel *)

Module Leg.
Import Js Lodash Waypoint.

(** Modelled from the spec: LegModel.js is not among the sources.  A leg
    is identified by the route string segment it was built from, owns an
    ordered sequence of waypoints of which the flown ones are moved out of
    the remaining ones, carries its SID and STAR tags and reports a bottom
    and a top altitude for its procedure. *)
Record LegModel : Type := {
  routeString : string;
  waypoints : list WaypointModel;
  flownWaypoints : list WaypointModel;
  isSidLeg : bool;
  isStarLeg : bool;
  getProcedureBottomAltitude : Z;
  getProcedureTopAltitude : Z
}.

Definition with_waypoints (remaining flown : list WaypointModel) (this : LegModel) : LegModel := {|
  routeString := routeString this;
  waypoints := remaining;
  flownWaypoints := flown;
  isSidLeg := isSidLeg this;
  isStarLeg := isStarLeg this;
  getProcedureBottomAltitude := getProcedureBottomAltitude this;
  getProcedureTopAltitude := getProcedureTopAltitude this
|}.

(** Modelled from the spec: the first of the remaining waypoints. *)
Definition currentWaypoint (this : LegModel) : option WaypointModel :=
  _first (waypoints this).

(** Modelled from the spec: a next waypoint exists within the leg. *)
Definition hasNextWaypoint (this : LegModel) : bool :=
  bool_decide (1 < length (waypoints this))%nat.

(** Modelled from the spec: lookups go by the waypoint's internal
    identifier. *)
Definition isNamed (waypointName : string) (waypoint : WaypointModel) : bool :=
  bool_decide (_name waypoint = waypointName).

(** Modelled from the spec: whether a remaining waypoint has that name. *)
Definition hasWaypoint (waypointName : string) (this : LegModel) : bool :=
  existsb (isNamed waypointName) (waypoints this).

(** Modelled from the spec: the current waypoint becomes a flown one. *)
Definition skipToNextWaypoint (this : LegModel) : LegModel :=
  with_waypoints (drop 1 (waypoints this))
                 (flownWaypoints this ++ take 1 (waypoints this)) this.

(** Modelled from the spec: moves the waypoints in front of the named one
    out of the remaining sequence; fails, changing nothing, when the leg
    has no such waypoint. *)
Definition skipToWaypoint (waypointName : string) (this : LegModel) : bool * LegModel :=
  let waypointIndex := _findIndex (waypoints this) (isNamed waypointName) in
  if bool_decide (waypointIndex = -1) then (false, this)
  else
    let n := Z.to_nat waypointIndex in
    (true, with_waypoints (drop n (waypoints this))
                          (flownWaypoints this ++ take n (waypoints this)) this).

(** All waypoints of the leg, flown and remaining, in flight order. *)
Definition allWaypoints (this : LegModel) : list WaypointModel :=
  flownWaypoints this ++ waypoints this.

(** The leg as it was before any of its waypoints was flown. *)
Definition rewind (this : LegModel) : LegModel :=
  with_waypoints (allWaypoints this) [] this.

End Leg.

(** ** RouteModel *)

Module Route.
Import Js Lodash Waypoint Leg.

(** Modelled from the spec: constants/globalConstants is not among the
    sources.  Segmentation fails exactly on a string that contains a space
    and a replaced procedure is inserted exactly when no such leg exists, so
    the constant is the value [indexOf] and [_findIndex] give when they find
    nothing. *)
Definition INVALID_INDEX : Z := -1.

(** The divider inside a segment; line 562 writes it out in the template
    literal and line 546 shows it in the example route string. *)
Definition PROCEDURE_OR_AIRWAY_SEGMENT_DIVIDER : string := ".".

Section RouteModel.

(** What RouteModel.js imports and the sources do not hold: the
    navigation library, the LegModel constructor that resolves a segment
    against it or throws, the divider between direct segments and the
    number that stands for no altitude. *)
Variable NavigationLibrary : Type.
Variable LegModel_new : NavigationLibrary -> string -> result LegModel.
Variable DIRECT_SEGMENT_DIVIDER : string.
Variable INVALID_NUMBER : Z.

Record RouteModel : Type := {
  _legCollection : list LegModel;
  _navigationLibrary : NavigationLibrary;
  _previousLegCollection : list LegModel
}.

(** A method: the outcome and [this] after the call. *)
Definition M (A : Type) : Type := RouteModel -> result A * RouteModel.

Definition with_legs (legs : list LegModel) (this : RouteModel) : RouteModel := {|
  _legCollection := legs;
  _navigationLibrary := _navigationLibrary this;
  _previousLegCollection := _previousLegCollection this
|}.

Definition currentLeg (this : RouteModel) : result LegModel :=
  match _legCollection this with
  | [] => Throw (TypeError "Expected the route to contain at least one leg")
  | leg :: _ => Ok leg
  end.

Definition currentWaypoint (this : RouteModel) : result (option WaypointModel) :=
  bind (currentLeg this) (fun leg => Ok (Leg.currentWaypoint leg)).

Definition hasNextLeg (this : RouteModel) : bool :=
  bool_decide (1 < length (_legCollection this))%nat.

Definition waypoints (this : RouteModel) : list WaypointModel :=
  fold_left (fun waypointList legModel => waypointList ++ Leg.waypoints legModel)
            (_legCollection this) [].

(** *** Route string grammar *)

(** An element read inside a loop whose bounds keep the index within the
    array. *)
Definition at_index {A} (xs : list A) (i : nat) (d : A) : A := nth i xs d.

(** [directRouteSegments] starts as [[_first(legRouteStrings)]]; with no
    leg that element is undefined, which [join] writes as the empty
    string, and the loop does not run. *)
Definition _calculateRouteStringForLegs (legCollection : list LegModel) : string :=
  let legRouteStrings := _map (Some legCollection) routeString in
  let directRouteSegments := [default "" (_first legRouteStrings)] in
  let directRouteSegments :=
    for_loop (length legRouteStrings - 1) 1
      (fun i directRouteSegments =>
         let exitOfPreviousLeg :=
           _last (split (at_index legRouteStrings (i - 1) "")
                        PROCEDURE_OR_AIRWAY_SEGMENT_DIVIDER) in
         let leg := at_index legRouteStrings i "" in
         let legEntry := _first (split leg PROCEDURE_OR_AIRWAY_SEGMENT_DIVIDER) in
         if bool_decide (legEntry = exitOfPreviousLeg) then
           let indexOfPreviousLeg := (length directRouteSegments - 1)%nat in
           let legRouteStringWithoutEntry := replace leg (interpolate legEntry) "" in
           alter (fun previous => previous +:+ legRouteStringWithoutEntry)
                 indexOfPreviousLeg directRouteSegments
         else
           directRouteSegments ++ [leg])
      directRouteSegments in
  join directRouteSegments DIRECT_SEGMENT_DIVIDER.

Definition routeString (this : RouteModel) : string :=
  _calculateRouteStringForLegs (_legCollection this).

Definition fullRouteString (this : RouteModel) : string :=
  _calculateRouteStringForLegs (_previousLegCollection this ++ _legCollection this).

(** The segments of one chained route string, pushed behind
    [segmentRouteStrings]: the body of the outer loop. *)
Definition divideChainedRouteString
    (chainedRouteString : string) (segmentRouteStrings : list string) : list string :=
  let elementsInChain := split chainedRouteString PROCEDURE_OR_AIRWAY_SEGMENT_DIVIDER in
  let '(elementsInChain, firstSegment) := splice elementsInChain 0 3 in
  let segments := firstSegment :: _chunk elementsInChain 2 in
  let segmentRouteStrings :=
    segmentRouteStrings ++ [join firstSegment PROCEDURE_OR_AIRWAY_SEGMENT_DIVIDER] in
  for_loop (length segments - 1) 1
    (fun j segmentRouteStrings =>
       let exitOfPreviousSegment := _last (at_index segments (j - 1) []) in
       let procedureAndExitOfSegment :=
         join (at_index segments j []) PROCEDURE_OR_AIRWAY_SEGMENT_DIVIDER in
       segmentRouteStrings
         ++ [interpolate exitOfPreviousSegment +:+ "." +:+ procedureAndExitOfSegment])
    segmentRouteStrings.

Definition _divideRouteStringIntoSegments (routeString : Value) : result (list string) :=
  match routeString with
  | Str routeString =>
      if bool_decide (indexOf routeString " " <> INVALID_INDEX) then
        Throw (TypeError
          ("Expected a route string that does not contain spaces, but received '"
             +:+ routeString +:+ "'"))
      else
        let chainedRouteStrings := split routeString DIRECT_SEGMENT_DIVIDER in
        Ok (for_loop (length chainedRouteStrings) 0
              (fun i segmentRouteStrings =>
                 divideChainedRouteString (at_index chainedRouteStrings i "")
                                          segmentRouteStrings)
              [])
  | _ =>
      Throw (TypeError
        ("Expected routeString's type to be string, but received '"
           +:+ typeof routeString +:+ "'"))
  end.

(** [_map] with a callback that may throw: the first throw ends it. *)
Fixpoint map_throwing {A B} (f : A -> result B) (xs : list A) : result (list B) :=
  match xs with
  | [] => Ok []
  | x :: rest =>
      bind (f x) (fun y => bind (map_throwing f rest) (fun ys => Ok (y :: ys)))
  end.

Definition _generateLegsFromRouteString
    (navigationLibrary : NavigationLibrary) (routeString : Value) : result (list LegModel) :=
  bind (_divideRouteStringIntoSegments routeString)
       (map_throwing (LegModel_new navigationLibrary)).

Definition _verifyRouteContainsMultipleWaypoints (this : RouteModel) : result unit :=
  if bool_decide (length (waypoints this) < 2)%nat then
    Throw (TypeError
      ("Expected RouteModel to have at least two waypoints, but only found "
         +:+ pretty (length (waypoints this)) +:+ " waypoints"))
  else Ok tt.

(** *** Life cycle *)

Definition init (routeString : Value) : M unit := fun this =>
  match _generateLegsFromRouteString (_navigationLibrary this) routeString with
  | Throw e => (Throw e, this)
  | Ok legs =>
      let this := with_legs legs this in
      match _verifyRouteContainsMultipleWaypoints this with
      | Throw e => (Throw e, this)
      | Ok _ => (Ok tt, this)
      end
  end.

(** [new RouteModel(navigationLibrary, routeString)]: a throw inside
    [init] leaves the caller without a route. *)
Definition RouteModel_new
    (navigationLibrary : NavigationLibrary) (routeString : Value) : result RouteModel :=
  let this := {|
    _legCollection := [];
    _navigationLibrary := navigationLibrary;
    _previousLegCollection := []
  |} in
  match init routeString this with
  | (Ok _, this) => Ok this
  | (Throw e, _) => Throw e
  end.

Definition reset : M unit := fun this => (Ok tt, with_legs [] this).

(** *** Queries *)

Definition getBottomAltitude (this : RouteModel) : Num :=
  let valueToExclude := INVALID_NUMBER in
  let minAltitudeFromLegs :=
    _without (_map (Some (_legCollection this)) getProcedureBottomAltitude)
             valueToExclude in
  Math_min minAltitudeFromLegs.

(** [this.legCollection], without the underscore: the class has the
    accessors currentLeg, currentWaypoint, fullRouteString, nextLeg,
    nextWaypoint, routeString and waypoints and the properties
    _legCollection, _navigationLibrary and _previousLegCollection, and
    nothing called legCollection; BaseModel, the base of every model class,
    knows nothing of legs.  The read is undefined. *)
Definition legCollection (this : RouteModel) : option (list LegModel) := None.

Definition getTopAltitude (this : RouteModel) : Num :=
  let maxAltitudeFromLegs := _map (legCollection this) getProcedureTopAltitude in
  Math_max maxAltitudeFromLegs.

(** The loop returns true at the first leg that has the waypoint and
    false behind the last one. *)
Definition hasWaypoint (waypointName : string) (this : RouteModel) : bool :=
  existsb (Leg.hasWaypoint waypointName) (_legCollection this).

(** *** Mutation *)

Definition replaceArrivalProcedure (routeString : string) : M bool := fun this =>
  match LegModel_new (_navigationLibrary this) routeString with
  | Throw error => (Ok false, this)
  | Ok starLegModel =>
      let starLegIndex := _findIndex (_legCollection this) isStarLeg in
      if bool_decide (starLegIndex = INVALID_INDEX) then
        (Ok true, with_legs (_legCollection this ++ [starLegModel]) this)
      else
        (Ok true,
         with_legs (<[Z.to_nat starLegIndex := starLegModel]> (_legCollection this)) this)
  end.

Definition replaceDepartureProcedure (routeString : string) : M bool := fun this =>
  match LegModel_new (_navigationLibrary this) routeString with
  | Throw error => (Ok false, this)
  | Ok sidLegModel =>
      let sidLegIndex := _findIndex (_legCollection this) isSidLeg in
      if bool_decide (sidLegIndex = INVALID_INDEX) then
        (Ok true, with_legs (sidLegModel :: _legCollection this) this)
      else
        (Ok true,
         with_legs (<[Z.to_nat sidLegIndex := sidLegModel]> (_legCollection this)) this)
  end.

(** Moves [count] legs from the front of the remaining legs behind the
    flown ones: [splice(0, count)] and [push(...moved)]. *)
Definition moveLegsToPrevious (count : Z) (this : RouteModel) : RouteModel :=
  let '(remaining, legModelsToMove) := splice (_legCollection this) 0 count in
  {| _legCollection := remaining;
     _navigationLibrary := _navigationLibrary this;
     _previousLegCollection := _previousLegCollection this ++ legModelsToMove |}.

Definition skipToNextLeg : M unit := fun this =>
  if negb (hasNextLeg this) then (Ok tt, this)
  else (Ok tt, moveLegsToPrevious 1 this).

(** A call of a LegModel method on [this.currentLeg]; the leg object is
    the first element of [_legCollection] and is changed in place. *)
Definition onCurrentLeg {A} (method : LegModel -> A * LegModel) : M A := fun this =>
  match currentLeg this with
  | Throw e => (Throw e, this)
  | Ok leg =>
      let '(a, leg) := method leg in
      (Ok a, with_legs (<[0%nat := leg]> (_legCollection this)) this)
  end.

Definition skipToNextWaypoint : M unit := fun this =>
  match currentLeg this with
  | Throw e => (Throw e, this)
  | Ok leg =>
      if negb (Leg.hasNextWaypoint leg) then skipToNextLeg this
      else onCurrentLeg (fun leg => (tt, Leg.skipToNextWaypoint leg)) this
  end.

Definition skipToWaypointName (waypointName : string) : M bool := fun this =>
  if negb (hasWaypoint waypointName this) then (Ok false, this)
  else
    match currentLeg this with
    | Throw e => (Throw e, this)
    | Ok leg =>
        let this :=
          if Leg.hasWaypoint waypointName leg
          then (onCurrentLeg (Leg.skipToWaypoint waypointName) this).2
          else this in
        let legIndex := _findIndex (_legCollection this) (Leg.hasWaypoint waypointName) in
        let this := moveLegsToPrevious legIndex this in
        onCurrentLeg (Leg.skipToWaypoint waypointName) this
    end.

(** *** Sequences of skips *)

Inductive Call : Type :=
| SkipToNextWaypoint
| SkipToNextLeg.

Definition call (c : Call) : M unit :=
  match c with
  | SkipToNextWaypoint => skipToNextWaypoint
  | SkipToNextLeg => skipToNextLeg
  end.

(** The route after the calls, made one after the other; a call that
    throws is caught by the caller and leaves the route as it is. *)
Definition run (calls : list Call) (this : RouteModel) : RouteModel :=
  fold_left (fun this c => (call c this).2) calls this.

(** Waypoints of the legs, the flown waypoints of each leg included. *)
Definition waypointCount (legs : list LegModel) : nat :=
  length (concat (map Leg.allWaypoints legs)).

Definition totalWaypointCount (this : RouteModel) : nat :=
  waypointCount (_previousLegCollection this ++ _legCollection this).

(** [k] legs went from the front of the remaining legs of [this] behind
    its flown legs; besides that only cursors inside legs moved. *)
Definition consumed (k : nat) (this this' : RouteModel) : Prop :=
  map Leg.rewind (_previousLegCollection this')
  = map Leg.rewind (_previousLegCollection this)
    ++ take k (map Leg.rewind (_legCollection this))
  /\ map Leg.rewind (_legCollection this')
     = drop k (map Leg.rewind (_legCollection this)).

(** *** Next leg and next waypoint *)

(** [get nextLeg()]: null without a next leg. *)
Definition nextLeg (this : RouteModel) : option LegModel :=
  if negb (hasNextLeg this) then None
  else _legCollection this !! 1%nat.

(** A property read on [this.nextLeg] throws when that is null. *)
Definition onNextLeg {A} (read : LegModel -> A) (this : RouteModel) : result A :=
  match nextLeg this with
  | Some leg => Ok (read leg)
  | None => Throw (TypeError "Cannot read properties of null (reading 'currentWaypoint')")
  end.

Definition hasNextWaypoint (this : RouteModel) : result bool :=
  bind (currentLeg this) (fun leg =>
    if Leg.hasNextWaypoint leg then Ok true
    else if negb (hasNextLeg this) then Ok false
    else bind (onNextLeg Leg.currentWaypoint this)
              (fun waypoint => Ok (negb (_isNil waypoint)))).

(** [get nextWaypoint()]: null is [None], as is an undefined element. *)
Definition nextWaypoint (this : RouteModel) : result (option WaypointModel) :=
  bind (hasNextWaypoint this) (fun has =>
    if negb has then Ok None
    else
      bind (currentLeg this) (fun leg =>
        if Leg.hasNextWaypoint leg then Ok (Leg.waypoints leg !! 1%nat)
        else onNextLeg Leg.currentWaypoint this)).

(** Both [replace] calls have a string for pattern: each replaces one
    occurrence. *)
Definition getRouteStringWithSpaces (this : RouteModel) : string :=
  replace (replace (routeString this) DIRECT_SEGMENT_DIVIDER " ")
          PROCEDURE_OR_AIRWAY_SEGMENT_DIVIDER " ".

End RouteModel.

End Route.

(** ** The route string grammar in the words of its description *)

Module Grammar.
Import Js.

(** The tokens behind the first three, two at a time: each NAME.EXIT pair
    becomes PREVIOUS_EXIT.NAME.EXIT, and a last token without partner
    becomes PREVIOUS_EXIT.NAME. *)
Fixpoint pairSegments (previousExit : string) (tokens : list string) : list string :=
  match tokens with
  | [] => []
  | name :: rest =>
      match rest with
      | [] => [previousExit +:+ "." +:+ name]
      | exit :: rest =>
          (previousExit +:+ "." +:+ name +:+ "." +:+ exit) :: pairSegments exit rest
      end
  end.

(** One direct chunk: its first three tokens, then the pairs. *)
Definition chunkSegments (chunk : string) : list string :=
  let tokens := split chunk "." in
  let firstSegment := take 3 tokens in
  join firstSegment "." :: pairSegments (default "" (last firstSegment)) (drop 3 tokens).

Definition segments (directDivider routeString : string) : list string :=
  concat (map chunkSegments (split routeString directDivider)).

(** A direct chunk without its entry fix: what is left to write when the
    fix already ends the text before it. *)
Definition withoutEntry (chunk : string) : string :=
  appendAll (map (fun token => "." +:+ token) (drop 1 (split chunk "."))).

Definition entryFix (chunk : string) : option string := head (split chunk ".").

Definition exitFix (chunk : string) : option string := last (split chunk ".").

(** The direct chunks behind [previous] written out: a chunk that enters
    at the fix where [previous] exits shares that fix, the others follow
    the direct divider. *)
Fixpoint joinBehind (directDivider previous : string) (chunks : list string) : string :=
  match chunks with
  | [] => ""
  | chunk :: rest =>
      (if bool_decide (entryFix chunk = exitFix previous)
       then withoutEntry chunk
       else directDivider +:+ chunk)
      +:+ joinBehind directDivider chunk rest
  end.

(** The route string with every transition fix written once. *)
Definition joinSharingTransitions (directDivider : string) (chunks : list string) : string :=
  match chunks with
  | [] => ""
  | chunk :: rest => chunk +:+ joinBehind directDivider chunk rest
  end.

(** No direct chunk enters at the fix where the chunk before it exits. *)
Fixpoint noSharedTransition (previous : string) (chunks : list string) : bool :=
  match chunks with
  | [] => true
  | chunk :: rest =>
      negb (bool_decide (entryFix chunk = exitFix previous))
      && noSharedTransition chunk rest
  end.

Definition transitionsDistinct (chunks : list string) : bool :=
  match chunks with
  | [] => true
  | chunk :: rest => noSharedTransition chunk rest
  end.

End Grammar.

(** ** Sample data *)

Module Sample.
Import Js Waypoint Leg.

(** Route strings are written here with two dots between direct
    segments. *)
Definition directDivider : string := "..".

Definition tab : ascii := "009"%char.

Definition tabbedRouteString : string := "KSFO" +:+ String tab "KLAX".

(** What a browser binds to a string around the module: the global object
    has the property [name] ([window.name]), empty unless a page sets it. *)
Definition browserScope (identifier : string) : option string :=
  if bool_decide (identifier = "name") then Some "" else None.

(** Under Node the global object has no property [name]. *)
Definition nodeScope (identifier : string) : option string := None.

(** A small navigation library: the fixes it knows and the names of its
    departure and arrival procedures. *)
Record NavigationLibrary : Type := {
  fixes : list string;
  sids : list string;
  stars : list string
}.

Definition navigationLibrary : NavigationLibrary := {|
  fixes := ["KSFO28R"; "SXC"; "IPL"; "MLF"; "KLAS07R"];
  sids := ["OFFSH9"];
  stars := ["GRNPA1"]
|}.

Definition waypoint (name : string) (altitude : Z) : WaypointModel := {|
  altitudeMaximum := altitude;
  altitudeMinimum := altitude;
  isHold := false;
  speedMaximum := -1;
  speedMinimum := -1;
  timer := -999;
  _holdingPatternInboundHeading := -1;
  _isFlyOverWaypoint := false;
  _isVector := false;
  _legLength := "";
  _name := name;
  _positionModel := Some {| relativePosition := (0, 0) |};
  _turnDirection := ""
|}.

(** A leg constructor over that library: a lone known fix gives a leg of
    one waypoint, ENTRY.NAME.EXIT between known fixes a leg of two; any
    other segment throws. *)
Definition LegModel_new (library : NavigationLibrary) (segment : string) : result LegModel :=
  match split segment "." with
  | [fix_] =>
      if bool_decide (fix_ ∈ fixes library) then
        Ok {| routeString := segment;
              waypoints := [waypoint fix_ (-1)];
              flownWaypoints := [];
              isSidLeg := false;
              isStarLeg := false;
              getProcedureBottomAltitude := -1;
              getProcedureTopAltitude := -1 |}
      else Throw (LookupError segment)
  | [entry; name; exit] =>
      if bool_decide (entry ∈ fixes library) && bool_decide (exit ∈ fixes library) then
        Ok {| routeString := segment;
              waypoints := [waypoint entry 3000; waypoint exit 11000];
              flownWaypoints := [];
              isSidLeg := bool_decide (name ∈ sids library);
              isStarLeg := bool_decide (name ∈ stars library);
              getProcedureBottomAltitude := 3000;
              getProcedureTopAltitude := 11000 |}
      else Throw (LookupError segment)
  | _ => Throw (LookupError segment)
  end.

End Sample.

Module SampleRoute.
Import Js Waypoint Leg Sample.

Definition leg (segment : string) (sid star : bool) (names : list string) : LegModel := {|
  routeString := segment;
  waypoints := map (fun name => waypoint name (-1)) names;
  flownWaypoints := [];
  isSidLeg := sid;
  isStarLeg := star;
  getProcedureBottomAltitude := 3000;
  getProcedureTopAltitude := 11000
|}.

Definition departure : LegModel :=
  leg "KSFO28R.OFFSH9.SXC" true false ["ksfo28r"; "offsh"; "sxc"].

Definition airway : LegModel :=
  leg "SXC.V458.IPL" false false ["sxc"; "seal"; "ipl"].

Definition direct : LegModel := leg "MLF" false false ["mlf"].

Definition arrival : LegModel :=
  leg "MLF.GRNPA1.KLAS07R" false true ["mlf"; "grnpa"; "klas07r"].

(** Three legs, nothing flown. *)
Definition route : Route.RouteModel NavigationLibrary := {|
  Route._legCollection := [departure; airway; direct];
  Route._navigationLibrary := navigationLibrary;
  Route._previousLegCollection := []
|}.

(** A vector waypoint that is flown over, marked as a hold. *)
Definition holdWaypoint : WaypointModel :=
  updateWaypointWithHoldProps 3142 "left" "1min" {|
    altitudeMaximum := 9000;
    altitudeMinimum := 7000;
    isHold := false;
    speedMaximum := 250;
    speedMinimum := -1;
    timer := -999;
    _holdingPatternInboundHeading := -1;
    _isFlyOverWaypoint := true;
    _isVector := true;
    _legLength := "";
    _name := "#320";
    _positionModel := Some {| relativePosition := (1500, -2500) |};
    _turnDirection := ""
  |}.

(** The departure and the airway alone. *)
Definition shortRoute : Route.RouteModel NavigationLibrary := {|
  Route._legCollection := [departure; airway];
  Route._navigationLibrary := navigationLibrary;
  Route._previousLegCollection := []
|}.

(** A route that reached its last leg. *)
Definition flownRoute : Route.RouteModel NavigationLibrary := {|
  Route._legCollection := [direct];
  Route._navigationLibrary := navigationLibrary;
  Route._previousLegCollection := [departure; airway]
|}.

End SampleRoute.

(** * Properties *)

(** ** Strings, loops and lodash helpers *)

Module JsFacts.
Import Js Lodash.

Lemma append_nil_l (s : string) : "" +:+ s = s.
Proof. reflexivity. Qed.

Lemma append_cons (c : ascii) (s t : string) : String c s +:+ t = String c (s +:+ t).
Proof. reflexivity. Qed.

Lemma append_nil_r (s : string) : s +:+ "" = s.
Proof.
  induction s as [|c s IH]; [reflexivity |].
  now rewrite append_cons, IH.
Qed.

Lemma append_assoc (a b c : string) : (a +:+ b) +:+ c = a +:+ b +:+ c.
Proof.
  induction a as [|x a IH]; [reflexivity |].
  now rewrite !append_cons, IH.
Qed.

Lemma strip_prefix_append (p r : string) : strip_prefix p (p +:+ r) = Some r.
Proof.
  induction p as [|a p IH]; [reflexivity |].
  rewrite append_cons. simpl. now rewrite Ascii.eqb_refl.
Qed.

Lemma strip_prefix_Some (p s r : string) : strip_prefix p s = Some r -> s = p +:+ r.
Proof.
  revert s; induction p as [|a p IH]; intros s; simpl.
  - now intros [= ->].
  - destruct s as [|b s]; [discriminate|].
    destruct (Ascii.eqb_spec a b) as [->|]; [|discriminate].
    intros H. now rewrite (IH _ H).
Qed.

(** *** [for] loops *)

Lemma for_loop_ext {S : Type} (count start : nat) (f g : nat -> S -> S) (s : S) :
  (forall i s, (start <= i < start + count)%nat -> f i s = g i s) ->
  for_loop count start f s = for_loop count start g s.
Proof.
  revert start s; induction count as [|n IH]; intros start s H; simpl; [reflexivity|].
  rewrite H by lia. apply IH. intros i s' Hi. apply H. lia.
Qed.

Lemma for_loop_elements {A S : Type} (body : A -> S -> S) (d : A) (pre xs : list A) (s : S) :
  for_loop (length xs) (length pre) (fun i s => body (nth i (pre ++ xs) d) s) s
  = fold_left (fun s x => body x s) xs s.
Proof.
  revert pre s; induction xs as [|x xs IH]; intros pre s; simpl; [reflexivity|].
  rewrite app_nth2, Nat.sub_diag by lia. simpl.
  specialize (IH (pre ++ [x]) (body x s)).
  rewrite length_app, <- app_assoc in IH. simpl in IH.
  rewrite Nat.add_1_r in IH. exact IH.
Qed.

Lemma for_loop_adjacent {A S : Type} (body : A -> A -> S -> S) (d : A)
      (pre : list A) (previous : A) (xs : list A) (s : S) :
  for_loop (length xs) (Datatypes.S (length pre))
    (fun j s => body (nth (j - 1) (pre ++ previous :: xs) d)
                     (nth j (pre ++ previous :: xs) d) s) s
  = fold_adjacent body previous xs s.
Proof.
  revert pre previous s; induction xs as [|x xs IH]; intros pre previous s; simpl;
    [reflexivity|].
  rewrite Nat.sub_0_r.
  rewrite (app_nth2 pre (previous :: x :: xs) d (n:=length pre)) by lia.
  rewrite (app_nth2 pre (previous :: x :: xs) d (n:=Datatypes.S (length pre))) by lia.
  rewrite Nat.sub_diag.
  replace (Datatypes.S (length pre) - length pre)%nat with 1%nat by lia. simpl.
  specialize (IH (pre ++ [previous]) x (body previous x s)).
  rewrite length_app, <- app_assoc in IH. simpl in IH.
  rewrite Nat.add_1_r in IH. exact IH.
Qed.

Lemma for_loop_elements_0 {A S : Type} (body : A -> S -> S) (d : A) (xs : list A) (s : S) :
  for_loop (length xs) 0 (fun i s => body (nth i xs d) s) s
  = fold_left (fun s x => body x s) xs s.
Proof. exact (for_loop_elements body d [] xs s). Qed.

Lemma for_loop_adjacent_1 {A S : Type} (body : A -> A -> S -> S) (d : A)
      (previous : A) (xs : list A) (s : S) :
  for_loop (length xs) 1
    (fun j s => body (nth (j - 1) (previous :: xs) d) (nth j (previous :: xs) d) s) s
  = fold_adjacent body previous xs s.
Proof. exact (for_loop_adjacent body d [] previous xs s). Qed.

Lemma for_loop_adjacent_body {A S : Type} (body : A -> A -> S -> S) (d : A)
      (previous : A) (xs : list A) (loop : nat -> S -> S) (s : S) :
  (forall j s, loop j s
               = body (nth (j - 1) (previous :: xs) d) (nth j (previous :: xs) d) s) ->
  for_loop (length xs) 1 loop s = fold_adjacent body previous xs s.
Proof.
  intros H. rewrite <- (for_loop_adjacent_1 body d).
  apply for_loop_ext. intros j s' _. apply H.
Qed.

Lemma fold_left_pointwise {A B : Type} (f g : B -> A -> B) (xs : list A) (acc : B) :
  (forall acc x, f acc x = g acc x) -> fold_left f xs acc = fold_left g xs acc.
Proof.
  intros H. revert acc; induction xs as [|x xs IH]; intros acc; simpl;
    [reflexivity | now rewrite H, IH].
Qed.

Lemma fold_left_push_all {A B : Type} (f : A -> list B) (xs : list A) (acc : list B) :
  fold_left (fun acc x => acc ++ f x) xs acc = acc ++ concat (map f xs).
Proof.
  revert acc; induction xs as [|x xs IH]; intros acc; simpl.
  - now rewrite app_nil_r.
  - now rewrite IH, app_assoc.
Qed.

Lemma default_last_cons {A : Type} (xs : list A) :
  forall (d x : A), default d (last (x :: xs)) = default x (last xs).
Proof.
  induction xs as [|y xs IH]; intros d x; [reflexivity|].
  rewrite last_cons_cons, (IH d y), (IH x y). reflexivity.
Qed.

(** *** [split] and [join] *)

Lemma split_from_nonempty (sep : string) (skip : nat) (s : string) :
  split_from sep skip s <> [].
Proof.
  revert skip; induction s as [|c s IH]; intros skip; simpl; [discriminate|].
  destruct skip as [|k]; [|apply IH].
  destruct (strip_prefix sep (String c s)); [discriminate|].
  specialize (IH 0%nat). destruct (split_from sep 0 s); [contradiction | discriminate].
Qed.

Lemma split_dot_nonempty (s : string) : split s "." <> [].
Proof. apply split_from_nonempty. Qed.

Lemma split_from_skip (sep u r : string) :
  split_from sep (String.length u) (u +:+ r) = split_from sep 0 r.
Proof. induction u as [|a u IH]; [reflexivity | exact IH]. Qed.

Lemma split_from_separator (a : ascii) (sep' r : string) :
  split_from (String a sep') 0 (String a sep' +:+ r)
  = "" :: split_from (String a sep') 0 r.
Proof.
  rewrite append_cons.
  change (split_from (String a sep') 0 (String a (sep' +:+ r)))
    with (match strip_prefix (String a sep') (String a (sep' +:+ r)) with
          | Some _ => "" :: split_from (String a sep')
                               (String.length (String a sep') - 1) (sep' +:+ r)
          | None => push_front a (split_from (String a sep') 0 (sep' +:+ r))
          end).
  rewrite <- append_cons, strip_prefix_append.
  replace (String.length (String a sep') - 1)%nat with (String.length sep')
    by (simpl; lia).
  now rewrite split_from_skip.
Qed.

Lemma join_cons (x : string) (xs : list string) (sep : string) :
  xs <> [] -> join (x :: xs) sep = x +:+ sep +:+ join xs sep.
Proof. destruct xs; [contradiction | reflexivity]. Qed.

Lemma join_push_front (c : ascii) (xs : list string) (sep : string) :
  xs <> [] -> join (push_front c xs) sep = String c (join xs sep).
Proof.
  destruct xs as [|x [|y xs]]; [contradiction | reflexivity | reflexivity].
Qed.

Lemma join_characters (s : string) : join (characters s) "" = s.
Proof.
  induction s as [|c [|c' s] IH]; [reflexivity | reflexivity |].
  change (characters (String c (String c' s)))
    with (String c "" :: characters (String c' s)).
  rewrite join_cons by discriminate. now rewrite IH.
Qed.

Lemma join_split_from (sep : string) (n : nat) :
  sep <> "" ->
  forall s, (String.length s <= n)%nat -> join (split_from sep 0 s) sep = s.
Proof.
  intros Hsep. induction n as [|n IH]; intros s Hn.
  - destruct s; [reflexivity | simpl in Hn; lia].
  - destruct s as [|c s]; [reflexivity|].
    destruct (strip_prefix sep (String c s)) as [r|] eqn:Hp.
    + apply strip_prefix_Some in Hp. rewrite Hp.
      destruct sep as [|a sep']; [contradiction|].
      rewrite split_from_separator.
      rewrite join_cons by apply split_from_nonempty.
      rewrite IH; [reflexivity|].
      apply (f_equal String.length) in Hp.
      rewrite append_cons in Hp. simpl in Hp, Hn.
      assert (String.length r <= String.length (sep' +:+ r))%nat.
      { clear. induction sep' as [|b t IHt]; [rewrite append_nil_l; lia|].
        rewrite append_cons. simpl. lia. }
      lia.
    + simpl. rewrite Hp.
      rewrite join_push_front by apply split_from_nonempty.
      rewrite IH; [reflexivity | simpl in Hn; lia].
Qed.

(** Joining what [split] cut gives the string back. *)
Lemma join_split (s sep : string) : join (split s sep) sep = s.
Proof.
  destruct sep as [|a sep'].
  - apply join_characters.
  - apply (join_split_from (String a sep') (String.length s)); [discriminate | lia].
Qed.

Lemma join_cons_appendAll (x : string) (xs : list string) (sep : string) :
  join (x :: xs) sep = x +:+ appendAll (map (fun t => sep +:+ t) xs).
Proof.
  revert x; induction xs as [|y xs IH]; intros x.
  - simpl. now rewrite append_nil_r.
  - rewrite join_cons by discriminate. rewrite IH. simpl.
    now rewrite append_assoc.
Qed.

Lemma appendAll_app (xs ys : list string) :
  appendAll (xs ++ ys) = appendAll xs +:+ appendAll ys.
Proof.
  induction xs as [|x xs IH]; [reflexivity|].
  simpl. now rewrite IH, append_assoc.
Qed.

Lemma join_snoc (acc : list string) (x sep : string) :
  acc <> [] -> join (acc ++ [x]) sep = join acc sep +:+ sep +:+ x.
Proof.
  destruct acc as [|a acc]; [contradiction|]. intros _.
  change ((a :: acc) ++ [x]) with (a :: (acc ++ [x])).
  rewrite !join_cons_appendAll, map_app, appendAll_app. simpl.
  now rewrite append_nil_r, append_assoc.
Qed.

Lemma join_alter_last (acc : list string) (x sep : string) :
  acc <> [] ->
  join (alter (fun previous => previous +:+ x) (length acc - 1)%nat acc) sep
  = join acc sep +:+ x.
Proof.
  induction acc as [|a acc IH]; [contradiction|]. intros _.
  destruct acc as [|b acc]; [reflexivity|].
  change (length (a :: b :: acc) - 1)%nat with (S (length acc)).
  change (alter (fun previous => previous +:+ x) (S (length acc)) (a :: b :: acc))
    with (a :: alter (fun previous => previous +:+ x) (length acc) (b :: acc)).
  assert (Hne : alter (fun previous => previous +:+ x) (length acc) (b :: acc) <> []).
  { destruct acc; discriminate. }
  rewrite join_cons by exact Hne.
  replace (length acc) with (length (b :: acc) - 1)%nat by (simpl; lia).
  rewrite IH by discriminate.
  rewrite (join_cons a (b :: acc)) by discriminate.
  now rewrite !append_assoc.
Qed.

(** *** Tokens between dots *)

Lemma split_dot_cons (c : ascii) (s : string) :
  split (String c s) "."
  = if Ascii.eqb "." c then "" :: split s "." else push_front c (split s ".").
Proof.
  unfold split.
  change (split_from "." 0 (String c s))
    with (match (if Ascii.eqb "." c then Some s else None) with
          | Some _ => "" :: split_from "." 0 s
          | None => push_front c (split_from "." 0 s)
          end).
  now destruct (Ascii.eqb "." c).
Qed.

Lemma hasChar_cons (c c' : ascii) (s : string) :
  hasChar c (String c' s) = Ascii.eqb c c' || hasChar c s.
Proof. reflexivity. Qed.

Lemma split_token_dot (t r : string) :
  hasChar "." t = false -> split (t +:+ String "." r) "." = t :: split r ".".
Proof.
  induction t as [|c t IH]; intros Ht.
  - rewrite append_nil_l, split_dot_cons. reflexivity.
  - change (hasChar "." (String c t)) with (Ascii.eqb "." c || hasChar "." t) in Ht.
    apply orb_false_iff in Ht as [Hc Ht].
    rewrite append_cons, split_dot_cons, Hc, IH by exact Ht. reflexivity.
Qed.

Lemma split_token (t : string) : hasChar "." t = false -> split t "." = [t].
Proof.
  induction t as [|c t IH]; intros Ht; [reflexivity|].
  change (hasChar "." (String c t)) with (Ascii.eqb "." c || hasChar "." t) in Ht.
  apply orb_false_iff in Ht as [Hc Ht].
  rewrite split_dot_cons, Hc, IH by exact Ht. reflexivity.
Qed.

Lemma split_dot_tokens (s : string) :
  Forall (fun t => hasChar "." t = false) (split s ".").
Proof.
  induction s as [|c s IH]; [repeat constructor|].
  rewrite split_dot_cons. destruct (Ascii.eqb "." c) eqn:Hc.
  - constructor; [reflexivity | exact IH].
  - destruct (split s ".") as [|t ts]; unfold push_front.
    + repeat constructor. now rewrite hasChar_cons, Hc.
    + inversion IH as [|? ? Ht Hts]; subst. constructor; [|assumption].
      now rewrite hasChar_cons, Hc.
Qed.

Lemma split_join_tokens (tokens : list string) :
  tokens <> [] ->
  Forall (fun t => hasChar "." t = false) tokens ->
  split (join tokens ".") "." = tokens.
Proof.
  induction tokens as [|t tokens IH]; [contradiction|]. intros _ Hall.
  inversion Hall as [|? ? Ht Hrest]; subst.
  destruct tokens as [|t' tokens].
  - simpl. now apply split_token.
  - rewrite join_cons by discriminate.
    change ("." +:+ join (t' :: tokens) ".") with (String "." (join (t' :: tokens) ".")).
    rewrite split_token_dot by exact Ht.
    rewrite IH; [reflexivity | discriminate | exact Hrest].
Qed.

Lemma replace_prefix (p r x : string) : replace (p +:+ r) p x = x +:+ r.
Proof.
  pose proof (strip_prefix_append p r) as H.
  destruct (p +:+ r); simpl; now rewrite H.
Qed.

(** *** [indexOf] of a space *)

Lemma indexOf_from_space (s : string) (i : Z) :
  0 <= i -> (indexOf_from s " " i = -1 <-> hasSpace s = false).
Proof.
  revert i; induction s as [|c s IH]; intros i Hi; [simpl; tauto|].
  change (indexOf_from (String c s) " " i)
    with (match (if Ascii.eqb " " c then Some s else None) with
          | Some _ => i
          | None => indexOf_from s " " (i + 1)
          end).
  change (hasSpace (String c s)) with (bool_decide (c = " "%char) || hasSpace s).
  destruct (Ascii.eqb_spec " " c) as [<-|Hc].
  - rewrite bool_decide_eq_true_2 by reflexivity. split; [lia | discriminate].
  - rewrite bool_decide_eq_false_2 by congruence. apply IH. lia.
Qed.

Lemma hasSpace_hasWhitespace (s : string) : hasSpace s = true -> hasWhitespace s = true.
Proof.
  induction s as [|c s IH]; simpl; [discriminate|].
  intros [Hc | Hs]%orb_true_iff.
  - apply bool_decide_eq_true in Hc. subst c. reflexivity.
  - rewrite (IH Hs). apply orb_true_r.
Qed.

(** *** [_chunk] *)

Lemma _chunk_fuel_nil {A : Type} (fuel size : nat) : @_chunk_fuel A fuel [] size = [].
Proof. destruct fuel; reflexivity. Qed.

End JsFacts.

(** ** Segmentation of a route string *)

Module Segmentation.
Import Js Lodash Route JsFacts.

Section Divide.
Variable NavigationLibrary : Type.
Variable LegModel_new : NavigationLibrary -> string -> result Leg.LegModel.
Variable DIRECT_SEGMENT_DIVIDER : string.

Local Abbreviation divide := (_divideRouteStringIntoSegments DIRECT_SEGMENT_DIVIDER).

Lemma pairs_of_chunks (fuel : nat) :
  forall (tokens previous : list string) (acc : list string),
    (length tokens <= fuel)%nat ->
    fold_adjacent
      (fun previous current (acc : list string) =>
         acc ++ [interpolate (_last previous) +:+ "." +:+ join current "."])
      previous (_chunk_fuel fuel tokens 2) acc
    = acc ++ Grammar.pairSegments (interpolate (_last previous)) tokens.
Proof.
  induction fuel as [|fuel IH]; intros tokens previous acc Hlen.
  - destruct tokens; [simpl; now rewrite app_nil_r | simpl in Hlen; lia].
  - destruct tokens as [|name [|exit rest]].
    + simpl. now rewrite app_nil_r.
    + simpl. now rewrite _chunk_fuel_nil.
    + change (_chunk_fuel (S fuel) (name :: exit :: rest) 2)
        with ([name; exit] :: _chunk_fuel fuel rest 2).
      simpl fold_adjacent. rewrite IH by (simpl in Hlen; lia).
      rewrite <- app_assoc. reflexivity.
Qed.

Lemma divideChainedRouteString_spec (chained : string) (acc : list string) :
  divideChainedRouteString chained acc = acc ++ Grammar.chunkSegments chained.
Proof.
  unfold divideChainedRouteString, Grammar.chunkSegments,
    PROCEDURE_OR_AIRWAY_SEGMENT_DIVIDER, at_index.
  set (tokens := split chained ".").
  change (splice tokens 0 3) with (drop 3 tokens, take 3 tokens).
  cbv beta iota zeta.
  assert (Htok : tokens <> []) by apply split_dot_nonempty.
  set (chunks := _chunk (drop 3 tokens) 2).
  simpl length. rewrite Nat.sub_succ, Nat.sub_0_r.
  rewrite (for_loop_adjacent_1
             (fun previous current (acc : list string) =>
                acc ++ [interpolate (_last previous) +:+ "." +:+ join current "."])
             [] (take 3 tokens) chunks).
  subst chunks. unfold _chunk. rewrite pairs_of_chunks by lia.
  rewrite <- app_assoc. simpl app.
  destruct tokens as [|t tokens']; [contradiction|].
  assert (Hlast : exists x, _last (take 3 (t :: tokens')) = Some x).
  { unfold _last. destruct tokens' as [|t2 [|t3 ?]]; simpl; eauto. }
  destruct Hlast as [x Hx]. unfold _last in Hx. unfold _last. now rewrite Hx.
Qed.

(** The code on a string without a space, loop by loop, gives the
    segments of the grammar. *)
Lemma divide_space_free (routeString : string) :
  hasSpace routeString = false ->
  divide (Str routeString) = Ok (Grammar.segments DIRECT_SEGMENT_DIVIDER routeString).
Proof.
  intros Hspace. unfold _divideRouteStringIntoSegments, INVALID_INDEX.
  rewrite bool_decide_eq_false_2.
  2:{ intros H. apply H. apply indexOf_from_space; [lia | exact Hspace]. }
  f_equal. unfold at_index, Grammar.segments.
  set (chunks := split routeString DIRECT_SEGMENT_DIVIDER).
  rewrite (for_loop_elements_0
             (fun chained acc => divideChainedRouteString chained acc) "" chunks).
  rewrite (fold_left_pointwise _
             (fun acc chained => acc ++ Grammar.chunkSegments chained)).
  - now rewrite fold_left_push_all.
  - intros acc chained. apply divideChainedRouteString_spec.
Qed.

Lemma divide_not_space_free (v : Value) :
  isSpaceFreeString v = false ->
  exists message, divide v = Throw (TypeError message).
Proof.
  destruct v as [| |b|n|s|]; simpl; intros Hv; eauto.
  apply negb_false_iff in Hv.
  rewrite bool_decide_eq_true_2; [eauto|].
  unfold indexOf, INVALID_INDEX. intros H.
  apply indexOf_from_space in H; [congruence | lia].
Qed.

(** C2: on every route string free of whitespace,
    _divideRouteStringIntoSegments returns what the description of the
    grammar gives: the string is cut at the direct divider; each chunk is
    cut at the procedure divider, its first three tokens make the first
    segment, and the tokens left are taken two at a time, each pair
    written as PREVIOUS_EXIT.NAME.EXIT behind the exit of the segment
    before it. *)
Theorem divide_refines_grammar (routeString : string) :
  hasWhitespace routeString = false ->
  divide (Str routeString) = Ok (Grammar.segments DIRECT_SEGMENT_DIVIDER routeString).
Proof.
  intros Hws. apply divide_space_free.
  destruct (hasSpace routeString) eqn:Hs; [|reflexivity].
  apply hasSpace_hasWhitespace in Hs. congruence.
Qed.

(** C7, amended: _divideRouteStringIntoSegments throws a TypeError
    whenever its input is not a string or is a string with a space
    character in it, and then the constructor of the route throws the
    same error, so that no route comes out of such an input. *)
Theorem divide_throws_unless_space_free_string
    (navigationLibrary : NavigationLibrary) (v : Value) :
  isSpaceFreeString v = false ->
  exists message,
    divide v = Throw (TypeError message)
    /\ RouteModel_new NavigationLibrary LegModel_new DIRECT_SEGMENT_DIVIDER
         navigationLibrary v = Throw (TypeError message).
Proof.
  intros Hv. destruct (divide_not_space_free v Hv) as [message Hm].
  exists message. split; [exact Hm|].
  unfold RouteModel_new, init, _generateLegsFromRouteString. simpl.
  now rewrite Hm.
Qed.

End Divide.

Lemma divide_refines_grammar_witness :
  hasWhitespace "KSFO28R.OFFSH9.SXC.V458.IPL..MLF" = false
  /\ _divideRouteStringIntoSegments Sample.directDivider
       (Str "KSFO28R.OFFSH9.SXC.V458.IPL..MLF")
     = Ok (Grammar.segments Sample.directDivider "KSFO28R.OFFSH9.SXC.V458.IPL..MLF").
Proof.
  split; [reflexivity|].
  apply (divide_refines_grammar Sample.directDivider). reflexivity.
Defined.

(** The tab is whitespace, and the string with the tab is segmented all
    the same: only the space character is looked for. *)
Lemma divide_accepts_tab :
  hasWhitespace Sample.tabbedRouteString = true
  /\ _divideRouteStringIntoSegments Sample.directDivider (Str Sample.tabbedRouteString)
     = Ok [Sample.tabbedRouteString].
Proof. split; reflexivity. Qed.

End Segmentation.

(** ** Reassembly of a route string from its legs *)

Module Reassembly.
Import Js Lodash Route JsFacts.

Local Abbreviation tokens_ok ts := (Forall (fun t => hasChar "." t = false) ts).
Local Abbreviation dotted ts := (appendAll (map (fun t => "." +:+ t) ts)).

Section Reassemble.
Variable NavigationLibrary : Type.
Variable LegModel_new : NavigationLibrary -> string -> result Leg.LegModel.
Variable DIRECT_SEGMENT_DIVIDER : string.

Local Abbreviation D := DIRECT_SEGMENT_DIVIDER.

(** A leg constructed from a segment reports that segment as its route
    string. *)
Hypothesis LegModel_new_routeString :
  forall navigationLibrary segment leg,
    LegModel_new navigationLibrary segment = Ok leg -> Leg.routeString leg = segment.

Lemma replace_entry (leg : string) :
  replace leg (interpolate (_first (split leg "."))) "" = Grammar.withoutEntry leg.
Proof.
  unfold Grammar.withoutEntry, _first.
  pose proof (join_split leg ".") as Hj.
  pose proof (split_dot_nonempty leg) as Hne.
  destruct (split leg ".") as [|t ts]; [contradiction|].
  rewrite join_cons_appendAll in Hj.
  change (interpolate (head (t :: ts))) with t.
  change (drop 1 (t :: ts)) with ts.
  rewrite <- Hj at 1. apply replace_prefix.
Qed.

Lemma joinBehind_cons (previous chunk : string) (rest : list string) :
  Grammar.joinBehind D previous (chunk :: rest)
  = (if bool_decide (Grammar.entryFix chunk = Grammar.exitFix previous)
     then Grammar.withoutEntry chunk
     else D +:+ chunk)
    +:+ Grammar.joinBehind D chunk rest.
Proof. reflexivity. Qed.

Lemma merge_loop (legs : list string) :
  forall (previous : string) (acc : list string),
    acc <> [] ->
    join (fold_adjacent
            (fun previous leg (acc : list string) =>
               if bool_decide (_first (split leg ".") = _last (split previous "."))
               then alter (fun p => p +:+ replace leg (interpolate (_first (split leg "."))) "")
                          (length acc - 1)%nat acc
               else acc ++ [leg])
            previous legs acc) D
    = join acc D +:+ Grammar.joinBehind D previous legs.
Proof.
  induction legs as [|leg legs IH]; intros previous acc Hacc.
  - simpl. now rewrite append_nil_r.
  - rewrite joinBehind_cons.
    change (fold_adjacent ?f previous (leg :: legs) acc)
      with (fold_adjacent f leg legs (f previous leg acc)).
    cbv beta.
    unfold Grammar.entryFix, Grammar.exitFix, _first, _last.
    destruct (bool_decide (head (split leg ".") = last (split previous "."))) eqn:Hb.
    + rewrite IH.
      * rewrite join_alter_last by exact Hacc.
        fold (_first (split leg ".")). rewrite replace_entry.
        now rewrite !append_assoc.
      * destruct acc as [|a [|b acc]]; [contradiction | discriminate | discriminate].
    + rewrite IH.
      * rewrite join_snoc by exact Hacc. now rewrite !append_assoc.
      * destruct acc; discriminate.
Qed.

(** The loop of [_calculateRouteStringForLegs] writes every leg behind
    the text so far: without its entry fix when the leg before exits
    there, behind the direct divider otherwise. *)
Lemma calculate_spec (legs : list Leg.LegModel) :
  _calculateRouteStringForLegs D legs
  = Grammar.joinSharingTransitions D (map Leg.routeString legs).
Proof.
  unfold _calculateRouteStringForLegs, _map, PROCEDURE_OR_AIRWAY_SEGMENT_DIVIDER, at_index.
  cbv zeta.
  destruct (map Leg.routeString legs) as [|r0 rest]; [reflexivity|].
  simpl length. rewrite Nat.sub_succ, Nat.sub_0_r.
  rewrite for_loop_adjacent_body
    with (body := fun previous leg (acc : list string) =>
                    if bool_decide (_first (split leg ".") = _last (split previous "."))
                    then alter (fun p => p +:+ replace leg (interpolate (_first (split leg "."))) "")
                               (length acc - 1)%nat acc
                    else acc ++ [leg])
         (d := "") (previous := r0); [|intros; reflexivity].
  rewrite merge_loop by discriminate. reflexivity.
Qed.

Lemma joinBehind_app (xs ys : list string) :
  forall previous,
    Grammar.joinBehind D previous (xs ++ ys)
    = Grammar.joinBehind D previous xs
      +:+ Grammar.joinBehind D (default previous (last xs)) ys.
Proof.
  induction xs as [|x xs IH]; intros previous; [reflexivity|].
  change ((x :: xs) ++ ys) with (x :: (xs ++ ys)).
  rewrite !joinBehind_cons, IH, !append_assoc.
  now rewrite default_last_cons.
Qed.

Lemma joinBehind_exit (previous previous' : string) (chunks : list string) :
  Grammar.exitFix previous = Grammar.exitFix previous' ->
  Grammar.joinBehind D previous chunks = Grammar.joinBehind D previous' chunks.
Proof. intros H. destruct chunks; simpl; [reflexivity | now rewrite H]. Qed.

Lemma pairs_merge (n : nat) :
  forall (toks : list string) (e previous : string),
    (length toks <= n)%nat ->
    hasChar "." e = false -> tokens_ok toks ->
    Grammar.exitFix previous = Some e ->
    Grammar.joinBehind D previous (Grammar.pairSegments e toks) = dotted toks
    /\ Grammar.exitFix (default previous (last (Grammar.pairSegments e toks)))
       = last (e :: toks).
Proof.
  induction n as [|n IH]; intros toks e previous Hlen He Htoks Hexit.
  { destruct toks; [split; [reflexivity | exact Hexit] | simpl in Hlen; lia]. }
  destruct toks as [|name [|exit rest]].
  - split; [reflexivity | exact Hexit].
  - inversion Htoks as [|? ? Hname _]; subst.
    assert (Hs : split (e +:+ "." +:+ name) "." = [e; name]).
    { apply (split_join_tokens [e; name]); [discriminate | repeat constructor; assumption]. }
    change (Grammar.pairSegments e [name]) with [e +:+ "." +:+ name].
    rewrite joinBehind_cons, bool_decide_eq_true_2.
    2:{ unfold Grammar.entryFix. now rewrite Hs, Hexit. }
    unfold Grammar.withoutEntry. rewrite Hs. split.
    + change (Grammar.joinBehind D (e +:+ "." +:+ name) []) with "".
      now rewrite append_nil_r.
    + simpl. unfold Grammar.exitFix. now rewrite Hs.
  - inversion Htoks as [|? ? Hname Htoks']; subst.
    inversion Htoks' as [|? ? Hx Hrest]; subst.
    assert (Hs : split (e +:+ "." +:+ name +:+ "." +:+ exit) "." = [e; name; exit]).
    { apply (split_join_tokens [e; name; exit]);
        [discriminate | repeat constructor; assumption]. }
    assert (Hseg : Grammar.exitFix (e +:+ "." +:+ name +:+ "." +:+ exit) = Some exit).
    { unfold Grammar.exitFix. now rewrite Hs. }
    destruct (IH rest exit (e +:+ "." +:+ name +:+ "." +:+ exit)) as [IH1 IH2];
      [simpl in Hlen; lia | assumption | assumption | exact Hseg |].
    change (Grammar.pairSegments e (name :: exit :: rest))
      with ((e +:+ "." +:+ name +:+ "." +:+ exit) :: Grammar.pairSegments exit rest).
    split.
    + rewrite joinBehind_cons, bool_decide_eq_true_2.
      2:{ unfold Grammar.entryFix. now rewrite Hs, Hexit. }
      unfold Grammar.withoutEntry. rewrite Hs, IH1. simpl.
      now rewrite !append_assoc.
    + rewrite default_last_cons, IH2. now rewrite !last_cons_cons.
Qed.

Lemma tokens_merge (ts : list string) :
  ts <> [] -> tokens_ok ts ->
  let seg0 := join (take 3 ts) "." in
  let ps := Grammar.pairSegments (default "" (last (take 3 ts))) (drop 3 ts) in
  split seg0 "." = take 3 ts
  /\ seg0 +:+ Grammar.joinBehind D seg0 ps = join ts "."
  /\ Grammar.withoutEntry seg0 +:+ Grammar.joinBehind D seg0 ps = dotted (drop 1 ts)
  /\ Grammar.exitFix (default seg0 (last ps)) = last ts.
Proof.
  intros Hne Hall seg0 ps.
  destruct ts as [|t0 ts']; [contradiction|].
  assert (Hs : split seg0 "." = take 3 (t0 :: ts')).
  { apply split_join_tokens; [discriminate | now apply Forall_take]. }
  assert (He : exists e, last (take 3 (t0 :: ts')) = Some e) by
    (destruct ts' as [|t1 [|t2 ?]]; simpl; eauto).
  destruct He as [e He].
  assert (Hdot : hasChar "." e = false).
  { assert (Hin : e ∈ take 3 (t0 :: ts')).
    { apply last_Some in He as [l' ->]. apply elem_of_app. right. constructor. }
    pose proof (Forall_take _ 3%nat _ Hall) as Hall3.
    rewrite Forall_forall in Hall3. now apply Hall3. }
  assert (Hexit0 : Grammar.exitFix seg0 = Some e).
  { unfold Grammar.exitFix. now rewrite Hs. }
  destruct (pairs_merge (length (drop 3 (t0 :: ts'))) (drop 3 (t0 :: ts')) e seg0)
    as [P1 P2]; [lia | exact Hdot | now apply Forall_drop | exact Hexit0 |].
  subst ps. rewrite He. change (default "" (Some e)) with e.
  rewrite P1, P2.
  assert (Hparts : dotted (take 2 ts') +:+ dotted (drop 2 ts') = dotted ts').
  { rewrite <- appendAll_app, <- map_app, take_drop. reflexivity. }
  split; [exact Hs|]. split; [|split].
  - subst seg0. change (take 3 (t0 :: ts')) with (t0 :: take 2 ts').
    change (drop 3 (t0 :: ts')) with (drop 2 ts').
    rewrite !join_cons_appendAll, append_assoc, Hparts. reflexivity.
  - unfold Grammar.withoutEntry. rewrite Hs.
    change (drop 1 (take 3 (t0 :: ts'))) with (take 2 ts').
    change (drop 3 (t0 :: ts')) with (drop 2 ts').
    change (drop 1 (t0 :: ts')) with ts'. exact Hparts.
  - apply last_Some in He as [l' Hl'].
    rewrite <- (take_drop 3 (t0 :: ts')) at 2. rewrite Hl'.
    rewrite <- app_assoc. simpl app. now rewrite last_app_cons.
Qed.

Lemma chunk_merge (chunk : string) :
  exists seg0 ps,
    Grammar.chunkSegments chunk = seg0 :: ps
    /\ Grammar.entryFix seg0 = Grammar.entryFix chunk
    /\ seg0 +:+ Grammar.joinBehind D seg0 ps = chunk
    /\ Grammar.withoutEntry seg0 +:+ Grammar.joinBehind D seg0 ps
       = Grammar.withoutEntry chunk
    /\ Grammar.exitFix (default seg0 (last ps)) = Grammar.exitFix chunk.
Proof.
  destruct (tokens_merge (split chunk ".") (split_dot_nonempty chunk)
                         (split_dot_tokens chunk)) as (Hs & H1 & H2 & H3).
  eexists _, _. split; [reflexivity|].
  split; [|split; [|split]].
  - unfold Grammar.entryFix. rewrite Hs.
    pose proof (split_dot_nonempty chunk).
    now destruct (split chunk ".").
  - rewrite H1. apply join_split.
  - exact H2.
  - exact H3.
Qed.

Lemma segments_joinBehind (chunks : list string) :
  forall previous previous',
    Grammar.exitFix previous = Grammar.exitFix previous' ->
    Grammar.joinBehind D previous (concat (map Grammar.chunkSegments chunks))
    = Grammar.joinBehind D previous' chunks.
Proof.
  induction chunks as [|chunk chunks IH]; intros previous previous' Hexit;
    [reflexivity|].
  destruct (chunk_merge chunk) as (seg0 & ps & Hseg & Hentry & _ & Hwithout & Hlast).
  change (concat (map Grammar.chunkSegments (chunk :: chunks)))
    with (Grammar.chunkSegments chunk ++ concat (map Grammar.chunkSegments chunks)).
  rewrite Hseg.
  change ((seg0 :: ps) ++ ?r) with (seg0 :: (ps ++ r)).
  rewrite !joinBehind_cons, joinBehind_app, (IH _ chunk Hlast).
  rewrite Hentry, Hexit.
  destruct (bool_decide (Grammar.entryFix chunk = Grammar.exitFix previous')).
  - now rewrite <- Hwithout, !append_assoc.
  - pose proof (chunk_merge chunk) as (seg0' & ps' & Hseg' & _ & Hwhole & _).
    rewrite Hseg in Hseg'. injection Hseg' as <- <-.
    now rewrite <- Hwhole at 2; rewrite !append_assoc.
Qed.

Lemma segments_joinSharing (chunks : list string) :
  Grammar.joinSharingTransitions D (concat (map Grammar.chunkSegments chunks))
  = Grammar.joinSharingTransitions D chunks.
Proof.
  destruct chunks as [|chunk chunks]; [reflexivity|].
  destruct (chunk_merge chunk) as (seg0 & ps & Hseg & _ & Hwhole & _ & Hlast).
  change (concat (map Grammar.chunkSegments (chunk :: chunks)))
    with (Grammar.chunkSegments chunk ++ concat (map Grammar.chunkSegments chunks)).
  rewrite Hseg.
  change ((seg0 :: ps) ++ ?r) with (seg0 :: (ps ++ r)).
  unfold Grammar.joinSharingTransitions.
  rewrite joinBehind_app, (segments_joinBehind chunks _ chunk Hlast).
  now rewrite <- Hwhole at 2; rewrite !append_assoc.
Qed.

Lemma joinBehind_distinct (chunks : list string) :
  forall previous,
    Grammar.noSharedTransition previous chunks = true ->
    Grammar.joinBehind D previous chunks = appendAll (map (fun c => D +:+ c) chunks).
Proof.
  induction chunks as [|chunk chunks IH]; intros previous H; [reflexivity|].
  simpl in H. apply andb_true_iff in H as [Hb Hrest].
  apply negb_true_iff in Hb.
  rewrite joinBehind_cons, Hb, (IH _ Hrest). reflexivity.
Qed.

Lemma joinSharing_distinct (chunks : list string) :
  Grammar.transitionsDistinct chunks = true ->
  Grammar.joinSharingTransitions D chunks = join chunks D.
Proof.
  destruct chunks as [|chunk chunks]; [reflexivity|]. intros H.
  unfold Grammar.joinSharingTransitions.
  now rewrite (joinBehind_distinct _ _ H), join_cons_appendAll.
Qed.

Lemma generated_routeStrings (navigationLibrary : NavigationLibrary) (segments : list string) :
  forall legs,
    map_throwing (LegModel_new navigationLibrary) segments = Ok legs ->
    map Leg.routeString legs = segments.
Proof.
  induction segments as [|segment segments IH]; intros legs; simpl.
  - now intros [= <-].
  - destruct (LegModel_new navigationLibrary segment) as [leg|] eqn:Hleg;
      [|discriminate]. simpl.
    destruct (map_throwing (LegModel_new navigationLibrary) segments) as [legs'|];
      [|discriminate]. simpl.
    intros [= <-]. simpl.
    now rewrite (LegModel_new_routeString _ _ _ Hleg), (IH legs').
Qed.

(** A route that construction accepted holds the legs made from the
    segments of its route string. *)
Lemma constructed_legs (navigationLibrary : NavigationLibrary)
      (routeString : string) (route : RouteModel NavigationLibrary) :
  RouteModel_new NavigationLibrary LegModel_new D navigationLibrary (Str routeString)
  = Ok route ->
  map Leg.routeString (_legCollection NavigationLibrary route)
  = Grammar.segments D routeString.
Proof.
  unfold RouteModel_new, init, _generateLegsFromRouteString.
  destruct (hasSpace routeString) eqn:Hspace.
  - destruct (Segmentation.divide_not_space_free D (Str routeString)) as [m Hm].
    { simpl. now rewrite Hspace. }
    rewrite Hm. discriminate.
  - rewrite (Segmentation.divide_space_free D routeString Hspace).
    cbn [bind _navigationLibrary].
    destruct (map_throwing _ _) as [legs|] eqn:Hlegs; [|discriminate].
    destruct (_verifyRouteContainsMultipleWaypoints _ _); [|discriminate].
    intros [= <-]. exact (generated_routeStrings _ _ _ Hlegs).
Qed.

(** C1, amended: reassembly is the left-inverse of segmentation on the
    route strings in which no direct chunk enters at the fix where the
    direct chunk before it exits: for every such route string that the
    construction of a route accepts, the route string reassembled from the
    legs is the given string.  For every accepted route string it is the
    given one with every transition fix written once: a direct chunk that
    enters at the fix where the chunk before it exits is written without
    that fix and without the direct divider, and all else is as given.
    KSFO28R.OFFSH9.SXC.V458.IPL, when the direct divider does not occur
    in it, is segmented into KSFO28R.OFFSH9.SXC and SXC.V458.IPL, and
    legs with these two route strings are reassembled into
    KSFO28R.OFFSH9.SXC.V458.IPL. *)
Theorem reassembly_inverts_segmentation :
  (forall (navigationLibrary : NavigationLibrary) (routeString : string)
          (route : RouteModel NavigationLibrary),
      RouteModel_new NavigationLibrary LegModel_new D navigationLibrary (Str routeString)
      = Ok route ->
      Route.routeString NavigationLibrary D route
      = Grammar.joinSharingTransitions D (split routeString D)
      /\ (Grammar.transitionsDistinct (split routeString D) = true ->
          Route.routeString NavigationLibrary D route = routeString))
  /\ (split "KSFO28R.OFFSH9.SXC.V458.IPL" D = ["KSFO28R.OFFSH9.SXC.V458.IPL"] ->
      _divideRouteStringIntoSegments D (Str "KSFO28R.OFFSH9.SXC.V458.IPL")
      = Ok ["KSFO28R.OFFSH9.SXC"; "SXC.V458.IPL"])
  /\ (forall legs : list Leg.LegModel,
        map Leg.routeString legs = ["KSFO28R.OFFSH9.SXC"; "SXC.V458.IPL"] ->
        _calculateRouteStringForLegs D legs = "KSFO28R.OFFSH9.SXC.V458.IPL").
Proof.
  split; [|split].
  - intros navigationLibrary routeString route Hroute.
    assert (Hshared : Route.routeString NavigationLibrary D route
                      = Grammar.joinSharingTransitions D (split routeString D)).
    { unfold Route.routeString. rewrite calculate_spec.
      rewrite (constructed_legs _ _ _ Hroute).
      apply segments_joinSharing. }
    split; [exact Hshared|].
    intros Hdistinct. rewrite Hshared, (joinSharing_distinct _ Hdistinct).
    apply join_split.
  - intros Hchunk.
    rewrite (Segmentation.divide_space_free D) by reflexivity.
    unfold Grammar.segments. rewrite Hchunk. reflexivity.
  - intros legs Hlegs. rewrite calculate_spec, Hlegs. reflexivity.
Qed.

End Reassemble.

End Reassembly.

(** ** Skipping along the route *)

Module Navigation.
Import Js Lodash Waypoint Route JsFacts.

(** *** Legs *)

Lemma findIndex_from_first {A : Type} (predicate : A -> bool) (before : list A) (x : A)
      (after : list A) (i : Z) :
  Forall (fun y => predicate y = false) before ->
  predicate x = true ->
  _findIndex_from (before ++ x :: after) predicate i = i + Z.of_nat (length before).
Proof.
  intros Hbefore Hx. revert i.
  induction Hbefore as [|y before Hy _ IH]; intros i; simpl.
  - rewrite Hx. lia.
  - rewrite Hy, IH. lia.
Qed.

Lemma existsb_first {A : Type} (predicate : A -> bool) (xs : list A) :
  existsb predicate xs = true ->
  exists before x after,
    xs = before ++ x :: after
    /\ Forall (fun y => predicate y = false) before
    /\ predicate x = true.
Proof.
  induction xs as [|y xs IH]; simpl; [discriminate|].
  destruct (predicate y) eqn:Hy.
  - intros _. exists [], y, xs. repeat split; [constructor | exact Hy].
  - simpl. intros H. destruct (IH H) as (before & x & after & -> & Hb & Hx).
    exists (y :: before), x, after. repeat split; [now constructor | exact Hx].
Qed.

Lemma existsb_none {A : Type} (predicate : A -> bool) (xs : list A) :
  Forall (fun y => predicate y = false) xs -> existsb predicate xs = false.
Proof. induction 1 as [|y xs Hy _ IH]; simpl; [reflexivity | now rewrite Hy]. Qed.

(** What [skipToWaypoint] does to a leg that has the waypoint. *)
Lemma leg_skipToWaypoint_found (waypointName : string) (leg : Leg.LegModel) :
  Leg.hasWaypoint waypointName leg = true ->
  exists before waypoint after,
    Leg.waypoints leg = before ++ waypoint :: after
    /\ _name waypoint = waypointName
    /\ Leg.skipToWaypoint waypointName leg
       = (true, Leg.with_waypoints (waypoint :: after)
                                    (Leg.flownWaypoints leg ++ before) leg).
Proof.
  unfold Leg.hasWaypoint. intros H.
  destruct (existsb_first _ _ H) as (before & waypoint & after & Heq & Hb & Hw).
  exists before, waypoint, after. split; [exact Heq|]. split.
  - unfold Leg.isNamed in Hw. now apply bool_decide_eq_true in Hw.
  - unfold Leg.skipToWaypoint, _findIndex.
    rewrite Heq, (findIndex_from_first _ _ _ _ _ Hb Hw).
    rewrite bool_decide_eq_false_2 by lia.
    replace (Z.to_nat (0 + Z.of_nat (length before))) with (length before) by lia.
    rewrite drop_app_length, take_app_length. reflexivity.
Qed.

Lemma leg_skipToWaypoint_again (waypointName : string) (leg : Leg.LegModel) :
  Leg.hasWaypoint waypointName leg = true ->
  let leg' := (Leg.skipToWaypoint waypointName leg).2 in
  Leg.hasWaypoint waypointName leg' = true
  /\ Leg.skipToWaypoint waypointName leg' = (true, leg').
Proof.
  intros H. destruct (leg_skipToWaypoint_found _ _ H)
    as (before & waypoint & after & Heq & Hname & Hskip).
  rewrite Hskip. simpl.
  assert (Hnamed : Leg.isNamed waypointName waypoint = true).
  { unfold Leg.isNamed. now apply bool_decide_eq_true. }
  split.
  - unfold Leg.hasWaypoint. simpl. now rewrite Hnamed.
  - unfold Leg.skipToWaypoint, _findIndex. simpl. rewrite Hnamed. simpl.
    unfold Leg.with_waypoints. simpl. now rewrite app_nil_r.
Qed.

Lemma leg_skipToNextWaypoint_rewind (leg : Leg.LegModel) :
  Leg.rewind (Leg.skipToNextWaypoint leg) = Leg.rewind leg.
Proof.
  unfold Leg.rewind, Leg.skipToNextWaypoint, Leg.allWaypoints, Leg.with_waypoints.
  simpl. now rewrite <- app_assoc, take_drop.
Qed.

Lemma take_add {A : Type} (j k : nat) (xs : list A) :
  take (j + k) xs = take j xs ++ take k (drop j xs).
Proof.
  revert xs; induction j as [|j IH]; intros xs; [reflexivity|].
  destruct xs as [|x xs]; simpl; [now rewrite take_nil | now rewrite IH].
Qed.

Section Skip.
Variable NavigationLibrary : Type.

Local Abbreviation RouteModel := (RouteModel NavigationLibrary).
Local Abbreviation legs := (_legCollection NavigationLibrary).
Local Abbreviation flown := (_previousLegCollection NavigationLibrary).

Lemma moveLegsToPrevious_spec (before after : list Leg.LegModel) (this : RouteModel) :
  legs this = before ++ after ->
  moveLegsToPrevious NavigationLibrary (Z.of_nat (length before)) this
  = {| _legCollection := after;
       _navigationLibrary := _navigationLibrary NavigationLibrary this;
       _previousLegCollection := flown this ++ before |}.
Proof.
  intros Hlegs. unfold moveLegsToPrevious, splice. rewrite Hlegs.
  change (Z.to_nat 0) with 0%nat. rewrite Nat2Z.id.
  rewrite take_0, drop_0, Nat.add_0_l, app_nil_l.
  now rewrite drop_app_length, take_app_length.
Qed.

Lemma onCurrentLeg_cons {A : Type} (method : Leg.LegModel -> A * Leg.LegModel)
      (this : RouteModel) (leg : Leg.LegModel) (rest : list Leg.LegModel)
      (a : A) (leg' : Leg.LegModel) :
  legs this = leg :: rest ->
  method leg = (a, leg') ->
  onCurrentLeg NavigationLibrary method this
  = (Ok a, with_legs NavigationLibrary (leg' :: rest) this).
Proof.
  intros Hlegs Hm. unfold onCurrentLeg, currentLeg. now rewrite Hlegs, Hm.
Qed.

Lemma findIndex_head {A : Type} (predicate : A -> bool) (x : A) (xs : list A) :
  predicate x = true -> _findIndex (x :: xs) predicate = 0.
Proof. intros H. unfold _findIndex. simpl. now rewrite H. Qed.

(** C3: skipToWaypointName returns false and changes neither the
    remaining nor the flown legs when no leg has a waypoint of that
    name.  Otherwise, with [leg] the first leg that has one, the legs in
    front of it are moved behind the flown legs as they are, the legs
    behind it stay as they are, [leg] itself is advanced to the named
    waypoint, which becomes its current waypoint, and the value returned
    is the value of that advance inside the leg. *)
Theorem skipToWaypointName_spec (waypointName : string) (this : RouteModel) :
  (hasWaypoint NavigationLibrary waypointName this = false ->
   skipToWaypointName NavigationLibrary waypointName this = (Ok false, this))
  /\ (forall before leg after,
        legs this = before ++ leg :: after ->
        Forall (fun l => Leg.hasWaypoint waypointName l = false) before ->
        Leg.hasWaypoint waypointName leg = true ->
        let advance := Leg.skipToWaypoint waypointName leg in
        skipToWaypointName NavigationLibrary waypointName this
        = (Ok advance.1,
           {| _legCollection := advance.2 :: after;
              _navigationLibrary := _navigationLibrary NavigationLibrary this;
              _previousLegCollection := flown this ++ before |})
        /\ exists waypoint,
             Leg.currentWaypoint advance.2 = Some waypoint
             /\ _name waypoint = waypointName).
Proof.
  split.
  - intros H. unfold skipToWaypointName. now rewrite H.
  - intros before leg after Hlegs Hbefore Hleg advance.
    destruct (leg_skipToWaypoint_found _ _ Hleg)
      as (wbefore & waypoint & wafter & Hw & Hname & Hskip).
    destruct (leg_skipToWaypoint_again _ _ Hleg) as [Hagain Hidem].
    subst advance. rewrite Hskip in *. cbn [fst snd] in *.
    set (leg' := Leg.with_waypoints (waypoint :: wafter)
                                    (Leg.flownWaypoints leg ++ wbefore) leg) in *.
    split.
    2:{ exists waypoint. split; [reflexivity | exact Hname]. }
    assert (Hhas : hasWaypoint NavigationLibrary waypointName this = true).
    { unfold hasWaypoint. rewrite Hlegs, existsb_app. simpl.
      rewrite Hleg. now rewrite orb_true_r. }
    unfold skipToWaypointName. rewrite Hhas.
    change (negb true) with false. cbv iota.
    unfold currentLeg at 1. rewrite Hlegs.
    destruct before as [|first before].
    + (* the current leg is the one with the waypoint *)
      rewrite app_nil_l in Hlegs. rewrite app_nil_l. cbv iota. rewrite Hleg.
      rewrite (onCurrentLeg_cons _ this leg after true leg' Hlegs Hskip).
      cbn [snd]. cbv zeta.
      change (legs (with_legs NavigationLibrary (leg' :: after) this))
        with (leg' :: after).
      rewrite (findIndex_head _ leg' after Hagain).
      pose proof (moveLegsToPrevious_spec [] (leg' :: after)
                    (with_legs NavigationLibrary (leg' :: after) this) eq_refl)
        as Hmove.
      change (Z.of_nat (length [])) with 0 in Hmove. rewrite Hmove.
      etransitivity;
        [apply (onCurrentLeg_cons _ _ leg' after true leg');
           [reflexivity | exact Hidem]
        | reflexivity].
    + (* legs in front of it are moved first *)
      inversion Hbefore as [|? ? Hfirst Hrest]; subst.
      change ((first :: before) ++ leg :: after)
        with (first :: (before ++ leg :: after)).
      cbv iota. rewrite Hfirst. cbv zeta.
      unfold _findIndex.
      rewrite Hlegs, (findIndex_from_first _ (first :: before) leg after 0 Hbefore Hleg).
      rewrite Z.add_0_l.
      rewrite (moveLegsToPrevious_spec (first :: before) (leg :: after) this Hlegs).
      etransitivity;
        [apply (onCurrentLeg_cons _ _ leg after true leg');
           [reflexivity | exact Hskip]
        | reflexivity].
Qed.

(** *** Chains of skips *)

Local Abbreviation consumed := (consumed NavigationLibrary).

Lemma consumed_refl (this : RouteModel) : consumed 0 this this.
Proof. split; [now rewrite take_0, app_nil_r | now rewrite drop_0]. Qed.

Lemma consumed_trans (j k : nat) (a b c : RouteModel) :
  consumed j a b -> consumed k b c -> consumed (j + k) a c.
Proof.
  intros [Hf1 Hl1] [Hf2 Hl2]. split.
  - rewrite Hf2, Hf1, Hl1, <- app_assoc. now rewrite take_add.
  - rewrite Hl2, Hl1. now rewrite drop_drop.
Qed.

Lemma skipToNextLeg_consumed (this : RouteModel) :
  exists k, consumed k this (skipToNextLeg NavigationLibrary this).2.
Proof.
  unfold skipToNextLeg. destruct (hasNextLeg NavigationLibrary this).
  - exists 1%nat. simpl. unfold moveLegsToPrevious, splice. simpl.
    split; simpl.
    + rewrite map_app. f_equal. now destruct (legs this).
    + now destruct (legs this).
  - exists 0%nat. apply consumed_refl.
Qed.

Lemma skipToNextWaypoint_consumed (this : RouteModel) :
  exists k, consumed k this (skipToNextWaypoint NavigationLibrary this).2.
Proof.
  unfold skipToNextWaypoint, currentLeg.
  destruct (legs this) as [|leg rest] eqn:Hlegs.
  - exists 0%nat. apply consumed_refl.
  - destruct (Leg.hasNextWaypoint leg); simpl negb; cbv iota.
    + exists 0%nat.
      rewrite (onCurrentLeg_cons _ this leg rest tt (Leg.skipToNextWaypoint leg) Hlegs
                 eq_refl).
      split; simpl.
      * now rewrite take_0, app_nil_r.
      * rewrite Hlegs, drop_0. simpl. now rewrite leg_skipToNextWaypoint_rewind.
    + apply skipToNextLeg_consumed.
Qed.

Lemma run_consumed (calls : list Call) :
  forall this : RouteModel, exists k, consumed k this (run NavigationLibrary calls this).
Proof.
  induction calls as [|c calls IH]; intros this.
  - exists 0%nat. apply consumed_refl.
  - assert (Hstep : exists j, consumed j this (call NavigationLibrary c this).2).
    { destruct c; [apply skipToNextWaypoint_consumed | apply skipToNextLeg_consumed]. }
    destruct Hstep as [j Hj].
    destruct (IH (call NavigationLibrary c this).2) as [k Hk].
    exists (j + k)%nat. exact (consumed_trans _ _ _ _ _ Hj Hk).
Qed.

Lemma waypointCount_rewind (ls : list Leg.LegModel) :
  waypointCount ls = length (concat (map Leg.waypoints (map Leg.rewind ls))).
Proof. unfold waypointCount. now rewrite map_map. Qed.

Lemma consumed_count (k : nat) (this this' : RouteModel) :
  consumed k this this' ->
  totalWaypointCount NavigationLibrary this' = totalWaypointCount NavigationLibrary this.
Proof.
  intros [Hf Hl]. unfold totalWaypointCount.
  assert (Hall : map Leg.rewind (flown this' ++ legs this')
                 = map Leg.rewind (flown this ++ legs this)).
  { rewrite !map_app, Hf, Hl, <- app_assoc. now rewrite take_drop. }
  now rewrite !waypointCount_rewind, Hall.
Qed.

(** C8: after any finite sequence of skipToNextWaypoint and
    skipToNextLeg calls the waypoints of all legs, flown and remaining,
    are as many as before, and the flown legs are the legs flown before
    followed by a prefix of the legs that remained then, in their order,
    the rest of which still remains; legs are compared with their cursor
    put back to their first waypoint. *)
Theorem skips_consume_in_order (calls : list Call) (this : RouteModel) :
  let this' := run NavigationLibrary calls this in
  totalWaypointCount NavigationLibrary this' = totalWaypointCount NavigationLibrary this
  /\ exists k : nat,
       map Leg.rewind (flown this')
       = map Leg.rewind (flown this) ++ take k (map Leg.rewind (legs this))
       /\ map Leg.rewind (legs this') = drop k (map Leg.rewind (legs this)).
Proof.
  intros this'. destruct (run_consumed calls this) as [k Hk].
  split; [exact (consumed_count _ _ _ Hk) | exists k; exact Hk].
Qed.

End Skip.

End Navigation.

(** ** Replacing the departure and the arrival procedure *)

Module Procedures.
Import Js Lodash Route JsFacts.

Lemma findIndex_from_none {A : Type} (predicate : A -> bool) (xs : list A) (i : Z) :
  Forall (fun y => predicate y = false) xs -> _findIndex_from xs predicate i = -1.
Proof.
  intros H. revert i. induction H as [|y xs Hy _ IH]; intros i; simpl;
    [reflexivity | now rewrite Hy].
Qed.

Lemma insert_at_length {A : Type} (before : list A) (old new : A) (after : list A) :
  <[length before := new]> (before ++ old :: after) = before ++ new :: after.
Proof. induction before as [|b before IH]; simpl; [reflexivity | now rewrite IH]. Qed.

Section Replace.
Variable NavigationLibrary : Type.
Variable LegModel_new : NavigationLibrary -> string -> result Leg.LegModel.

Local Abbreviation RouteModel := (RouteModel NavigationLibrary).
Local Abbreviation legs := (_legCollection NavigationLibrary).
Local Abbreviation construct this := (LegModel_new (_navigationLibrary NavigationLibrary this)).
Local Abbreviation replaceArrival := (replaceArrivalProcedure NavigationLibrary LegModel_new).
Local Abbreviation replaceDeparture := (replaceDepartureProcedure NavigationLibrary LegModel_new).

Lemma replace_at_first (predicate : Leg.LegModel -> bool)
      (before : list Leg.LegModel) (old new : Leg.LegModel) (after : list Leg.LegModel) :
  Forall (fun l => predicate l = false) before ->
  predicate old = true ->
  let index := _findIndex (before ++ old :: after) predicate in
  index <> INVALID_INDEX
  /\ <[Z.to_nat index := new]> (before ++ old :: after) = before ++ new :: after.
Proof.
  intros Hbefore Hold index. subst index. unfold _findIndex, INVALID_INDEX.
  rewrite (Navigation.findIndex_from_first _ _ _ _ _ Hbefore Hold).
  split; [lia|].
  replace (Z.to_nat (0 + Z.of_nat (length before))) with (length before) by lia.
  apply insert_at_length.
Qed.

(** C4: when the constructor of the new leg throws, both
    replacements return false and the route is as before.  When it
    gives a leg they return true; the leg takes the place of the first
    STAR leg (of the first SID leg), with the legs in front of it and
    behind it as they were, and where the route has no such leg it is
    put behind the last leg for an arrival and in front of the first
    leg for a departure. *)
Theorem replaceProcedure_spec (routeString : string) (this : RouteModel) :
  (forall error, construct this routeString = Throw error ->
     replaceArrival routeString this = (Ok false, this)
     /\ replaceDeparture routeString this = (Ok false, this))
  /\ (forall new, construct this routeString = Ok new ->
        (Forall (fun l => Leg.isStarLeg l = false) (legs this) ->
         replaceArrival routeString this
         = (Ok true, with_legs NavigationLibrary (legs this ++ [new]) this))
        /\ (forall before old after,
              legs this = before ++ old :: after ->
              Forall (fun l => Leg.isStarLeg l = false) before ->
              Leg.isStarLeg old = true ->
              replaceArrival routeString this
              = (Ok true, with_legs NavigationLibrary (before ++ new :: after) this))
        /\ (Forall (fun l => Leg.isSidLeg l = false) (legs this) ->
            replaceDeparture routeString this
            = (Ok true, with_legs NavigationLibrary (new :: legs this) this))
        /\ (forall before old after,
              legs this = before ++ old :: after ->
              Forall (fun l => Leg.isSidLeg l = false) before ->
              Leg.isSidLeg old = true ->
              replaceDeparture routeString this
              = (Ok true, with_legs NavigationLibrary (before ++ new :: after) this))).
Proof.
  split.
  - intros error Hnew.
    unfold replaceArrivalProcedure, replaceDepartureProcedure. now rewrite Hnew.
  - intros new Hnew.
    unfold replaceArrivalProcedure, replaceDepartureProcedure. rewrite Hnew.
    repeat split.
    + intros Hnone. unfold _findIndex.
      rewrite (findIndex_from_none _ _ _ Hnone).
      now rewrite bool_decide_eq_true_2.
    + intros before old after Hlegs Hbefore Hold. rewrite Hlegs.
      destruct (replace_at_first Leg.isStarLeg before old new after Hbefore Hold)
        as [Hindex Hinsert].
      now rewrite bool_decide_eq_false_2, Hinsert.
    + intros Hnone. unfold _findIndex.
      rewrite (findIndex_from_none _ _ _ Hnone).
      now rewrite bool_decide_eq_true_2.
    + intros before old after Hlegs Hbefore Hold. rewrite Hlegs.
      destruct (replace_at_first Leg.isSidLeg before old new after Hbefore Hold)
        as [Hindex Hinsert].
      now rewrite bool_decide_eq_false_2, Hinsert.
Qed.

End Replace.

End Procedures.

(** ** Construction of a route *)

Module Construction.
Import Js Lodash Route JsFacts.

Section Construct.
Variable NavigationLibrary : Type.
Variable LegModel_new : NavigationLibrary -> string -> result Leg.LegModel.
Variable DIRECT_SEGMENT_DIVIDER : string.

Local Abbreviation RouteModel := (RouteModel NavigationLibrary).
Local Abbreviation generate :=
  (_generateLegsFromRouteString NavigationLibrary LegModel_new DIRECT_SEGMENT_DIVIDER).
Local Abbreviation construct :=
  (RouteModel_new NavigationLibrary LegModel_new DIRECT_SEGMENT_DIVIDER).

Lemma waypoints_concat (this : RouteModel) :
  waypoints NavigationLibrary this
  = concat (map Leg.waypoints (_legCollection NavigationLibrary this)).
Proof.
  unfold waypoints.
  exact (fold_left_push_all Leg.waypoints (_legCollection NavigationLibrary this) []).
Qed.

(** C5: when the legs made from the route string hold fewer than two
    waypoints between them the constructor throws a TypeError, and a route
    that the constructor returns holds the generated legs and two
    waypoints or more. *)
Theorem construction_requires_two_waypoints
    (navigationLibrary : NavigationLibrary) (routeString : Value) :
  (forall generated,
      generate navigationLibrary routeString = Ok generated ->
      (length (concat (map Leg.waypoints generated)) < 2)%nat ->
      exists message,
        construct navigationLibrary routeString = Throw (TypeError message))
  /\ (forall route,
        construct navigationLibrary routeString = Ok route ->
        generate navigationLibrary routeString
        = Ok (_legCollection NavigationLibrary route)
        /\ (2 <= length (waypoints NavigationLibrary route))%nat).
Proof.
  unfold RouteModel_new, init. cbn [_navigationLibrary]. split.
  - intros generated Hgen Hfew. rewrite Hgen.
    unfold _verifyRouteContainsMultipleWaypoints.
    rewrite bool_decide_eq_true_2; [eauto|].
    now rewrite waypoints_concat.
  - intros route.
    destruct (generate navigationLibrary routeString) as [generated|];
      [|discriminate].
    unfold _verifyRouteContainsMultipleWaypoints. case_bool_decide as Hfew;
      [discriminate|].
    intros [= <-]. split; [reflexivity | lia].
Qed.

End Construct.

End Construction.

(** ** Bottom and top altitude *)

Module Altitudes.
Import Js Lodash Route.

Lemma getTopAltitude_reads_no_leg (NavigationLibrary : Type)
      (this : RouteModel NavigationLibrary) :
  getTopAltitude NavigationLibrary this = NegInfinity.
Proof. reflexivity. Qed.

Lemma getBottomAltitude_min (NavigationLibrary : Type) (INVALID_NUMBER : Z)
      (this : RouteModel NavigationLibrary) :
  getBottomAltitude NavigationLibrary INVALID_NUMBER this
  = Math_min (filter (fun altitude => altitude <> INVALID_NUMBER)
                     (map Leg.getProcedureBottomAltitude
                          (_legCollection NavigationLibrary this))).
Proof. reflexivity. Qed.

(** C6: on the sample route, whose three legs all report a top altitude
    of 11000, getBottomAltitude is the least bottom altitude, 3000, and
    getTopAltitude is -Infinity, the maximum of no number at all: it maps
    over [this.legCollection], which no route has. *)
Theorem getTopAltitude_sample :
  map Leg.getProcedureTopAltitude (_legCollection _ SampleRoute.route)
  = [11000; 11000; 11000]
  /\ getBottomAltitude _ (-1) SampleRoute.route = Finite 3000
  /\ getTopAltitude _ SampleRoute.route = NegInfinity.
Proof. repeat split. Qed.

End Altitudes.

(** ** Life cycle of a waypoint *)

Module WaypointFacts.
Import Js Waypoint.

Lemma destroy_resets (this : WaypointModel) :
  let this' := destroy this in
  _name this' = "" /\ _turnDirection this' = "" /\ _legLength this' = ""
  /\ _positionModel this' = None /\ isHold this' = false
  /\ speedMaximum this' = -1 /\ speedMinimum this' = -1
  /\ altitudeMaximum this' = -1 /\ altitudeMinimum this' = -1
  /\ timer this' = -999.
Proof. repeat split. Qed.

Lemma destroy_keeps (this : WaypointModel) :
  let this' := destroy this in
  _holdingPatternInboundHeading this' = _holdingPatternInboundHeading this
  /\ _isFlyOverWaypoint this' = _isFlyOverWaypoint this
  /\ _isVector this' = _isVector this.
Proof. repeat split. Qed.

(** C9: destroy() on the sample hold waypoint resets name, turn
    direction, leg length, the four restrictions, hold flag and timer and
    drops the position, and leaves the inbound heading at 3142, the
    fly-over flag set and the vector flag set, none of them at the value
    the constructor starts from. *)
Theorem destroy_sample :
  let this' := destroy SampleRoute.holdWaypoint in
  _name this' = "" /\ _positionModel this' = None /\ isHold this' = false
  /\ timer this' = -999
  /\ _holdingPatternInboundHeading this' = 3142
  /\ _isFlyOverWaypoint this' = true
  /\ _isVector this' = true
  /\ this' <> defaults.
Proof. repeat split. discriminate. Qed.

(** C10, amended: the name setter never stores its argument, as its body
    reads the identifier [name] and not its parameter: whatever the
    argument, the outcome and the waypoint after the call are the same.
    What the call does depends on the host.  Where no scope around the class
    binds [name], as under Node, it throws a ReferenceError and the
    waypoint, its [_name] included, is as before; where a scope binds it, as
    the global object of a browser does, it does not throw and [_name]
    becomes the value bound there. *)
Theorem set_name_never_stores_argument
    (enclosing : string -> option string) (this : WaypointModel) (nameUpdate : string) :
  (forall other : string,
      set_name enclosing other this = set_name enclosing nameUpdate this)
  /\ (enclosing "name" = None ->
      set_name enclosing nameUpdate this
      = (Throw (ReferenceError "name is not defined"), this))
  /\ (forall bound : string,
        enclosing "name" = Some bound ->
        set_name enclosing nameUpdate this = (Ok tt, with_name bound this)
        /\ _name (set_name enclosing nameUpdate this).2 = bound).
Proof.
  split; [|split].
  - intros other. reflexivity.
  - intros Hname. unfold set_name, resolveIdentifier. simpl. now rewrite Hname.
  - intros bound Hname. unfold set_name, resolveIdentifier. simpl.
    now rewrite Hname.
Qed.

End WaypointFacts.

(** ** The properties on the sample data *)

Module Instances.
Import Js Lodash Waypoint Route.

Lemma sample_LegModel_new_routeString
      (library : Sample.NavigationLibrary) (segment : string) (leg : Leg.LegModel) :
  Sample.LegModel_new library segment = Ok leg -> Leg.routeString leg = segment.
Proof.
  unfold Sample.LegModel_new.
  destruct (split segment ".") as [|t1 [|t2 [|t3 [|t4 ts]]]]; try discriminate.
  - case_bool_decide; [|discriminate]. now intros [= <-].
  - destruct (_ && _); [|discriminate]. now intros [= <-].
Qed.

Lemma reassembly_inverts_segmentation_witness :
  exists route,
    RouteModel_new Sample.NavigationLibrary Sample.LegModel_new Sample.directDivider
                   Sample.navigationLibrary (Str "KSFO28R.OFFSH9.SXC.V458.IPL..MLF")
    = Ok route
    /\ map Leg.routeString (_legCollection _ route)
       = ["KSFO28R.OFFSH9.SXC"; "SXC.V458.IPL"; "MLF"]
    /\ Route.routeString _ Sample.directDivider route = "KSFO28R.OFFSH9.SXC.V458.IPL..MLF"
    /\ _divideRouteStringIntoSegments Sample.directDivider
         (Str "KSFO28R.OFFSH9.SXC.V458.IPL")
       = Ok ["KSFO28R.OFFSH9.SXC"; "SXC.V458.IPL"].
Proof.
  destruct (Reassembly.reassembly_inverts_segmentation
              Sample.NavigationLibrary Sample.LegModel_new Sample.directDivider
              sample_LegModel_new_routeString) as (Hgeneral & Hsegments & _).
  eexists. split; [reflexivity|]. split; [reflexivity|]. split.
  - apply (Hgeneral Sample.navigationLibrary); reflexivity.
  - apply Hsegments. reflexivity.
Defined.

(** A direct segment that starts at the fix where the segment before it
    ends: the two legs are written as one procedure chain. *)
Lemma shared_transition_written_once :
  exists route,
    RouteModel_new Sample.NavigationLibrary Sample.LegModel_new Sample.directDivider
                   Sample.navigationLibrary (Str "SXC..SXC.V458.IPL")
    = Ok route
    /\ map Leg.routeString (_legCollection _ route) = ["SXC"; "SXC.V458.IPL"]
    /\ Route.routeString _ Sample.directDivider route = "SXC.V458.IPL".
Proof. eexists. repeat split. Qed.

(** Reassembly is not the left-inverse there: the route strings
    SXC..SXC.V458.IPL and MLF..MLF are accepted, each gives two legs, and
    they read back as SXC.V458.IPL and MLF, which are other strings and are
    segmented into one segment only. *)
Lemma reassembly_loses_repeated_fix :
  (exists route,
      RouteModel_new Sample.NavigationLibrary Sample.LegModel_new Sample.directDivider
                     Sample.navigationLibrary (Str "SXC..SXC.V458.IPL")
      = Ok route
      /\ map Leg.routeString (_legCollection _ route) = ["SXC"; "SXC.V458.IPL"]
      /\ _calculateRouteStringForLegs Sample.directDivider (_legCollection _ route)
         = "SXC.V458.IPL"
      /\ _calculateRouteStringForLegs Sample.directDivider (_legCollection _ route)
         <> "SXC..SXC.V458.IPL"
      /\ _divideRouteStringIntoSegments Sample.directDivider (Str "SXC.V458.IPL")
         = Ok ["SXC.V458.IPL"])
  /\ (exists route,
        RouteModel_new Sample.NavigationLibrary Sample.LegModel_new Sample.directDivider
                       Sample.navigationLibrary (Str "MLF..MLF")
        = Ok route
        /\ map Leg.routeString (_legCollection _ route) = ["MLF"; "MLF"]
        /\ _calculateRouteStringForLegs Sample.directDivider (_legCollection _ route)
           = "MLF"
        /\ _calculateRouteStringForLegs Sample.directDivider (_legCollection _ route)
           <> "MLF..MLF").
Proof.
  split; eexists; repeat split; discriminate.
Qed.

Lemma divide_throws_unless_space_free_string_witness :
  isSpaceFreeString (Str "KSFO28R.OFFSH9.SXC V458 IPL") = false
  /\ exists message,
       _divideRouteStringIntoSegments Sample.directDivider
         (Str "KSFO28R.OFFSH9.SXC V458 IPL") = Throw (TypeError message)
       /\ RouteModel_new Sample.NavigationLibrary Sample.LegModel_new Sample.directDivider
            Sample.navigationLibrary (Str "KSFO28R.OFFSH9.SXC V458 IPL")
          = Throw (TypeError message).
Proof.
  split; [reflexivity|].
  apply (Segmentation.divide_throws_unless_space_free_string
           Sample.NavigationLibrary Sample.LegModel_new Sample.directDivider
           Sample.navigationLibrary).
  reflexivity.
Defined.

Lemma skipToWaypointName_spec_witness :
  skipToWaypointName _ "seal" SampleRoute.route
  = (Ok true,
     {| _legCollection :=
          [Leg.with_waypoints [Sample.waypoint "seal" (-1); Sample.waypoint "ipl" (-1)]
                              [Sample.waypoint "sxc" (-1)] SampleRoute.airway;
           SampleRoute.direct];
        _navigationLibrary := Sample.navigationLibrary;
        _previousLegCollection := [SampleRoute.departure] |})
  /\ skipToWaypointName _ "klax" SampleRoute.route = (Ok false, SampleRoute.route).
Proof.
  destruct (Navigation.skipToWaypointName_spec _ "seal" SampleRoute.route) as [_ Hfound].
  destruct (Navigation.skipToWaypointName_spec _ "klax" SampleRoute.route) as [Habsent _].
  split.
  - destruct (Hfound [SampleRoute.departure] SampleRoute.airway [SampleRoute.direct])
      as [H _]; [reflexivity | repeat constructor | reflexivity | exact H].
  - apply Habsent. reflexivity.
Defined.

Lemma replaceProcedure_spec_witness :
  replaceArrivalProcedure _ Sample.LegModel_new "KLAX" SampleRoute.route
  = (Ok false, SampleRoute.route)
  /\ (exists star,
        Sample.LegModel_new Sample.navigationLibrary "MLF.GRNPA1.KLAS07R" = Ok star
        /\ replaceArrivalProcedure _ Sample.LegModel_new "MLF.GRNPA1.KLAS07R"
             SampleRoute.route
           = (Ok true,
              with_legs _ [SampleRoute.departure; SampleRoute.airway; SampleRoute.direct; star]
                        SampleRoute.route))
  /\ (exists sid,
        Sample.LegModel_new Sample.navigationLibrary "KSFO28R.OFFSH9.MLF" = Ok sid
        /\ replaceDepartureProcedure _ Sample.LegModel_new "KSFO28R.OFFSH9.MLF"
             SampleRoute.route
           = (Ok true,
              with_legs _ [sid; SampleRoute.airway; SampleRoute.direct] SampleRoute.route)).
Proof.
  split; [|split].
  - destruct (Procedures.replaceProcedure_spec _ Sample.LegModel_new "KLAX" SampleRoute.route)
      as [Hfail _].
    apply (Hfail (LookupError "KLAX")). reflexivity.
  - eexists. split; [reflexivity|].
    destruct (Procedures.replaceProcedure_spec _ Sample.LegModel_new "MLF.GRNPA1.KLAS07R"
                SampleRoute.route) as [_ Hnew].
    destruct (Hnew _ eq_refl) as (Happend & _).
    apply Happend. repeat constructor.
  - eexists. split; [reflexivity|].
    destruct (Procedures.replaceProcedure_spec _ Sample.LegModel_new "KSFO28R.OFFSH9.MLF"
                SampleRoute.route) as [_ Hnew].
    destruct (Hnew _ eq_refl) as (_ & _ & _ & Hreplace).
    apply (Hreplace [] SampleRoute.departure [SampleRoute.airway; SampleRoute.direct]);
      [reflexivity | constructor | reflexivity].
Defined.

Lemma construction_requires_two_waypoints_witness :
  (exists message,
      RouteModel_new Sample.NavigationLibrary Sample.LegModel_new Sample.directDivider
                     Sample.navigationLibrary (Str "MLF")
      = Throw (TypeError message))
  /\ (exists route,
        RouteModel_new Sample.NavigationLibrary Sample.LegModel_new Sample.directDivider
                       Sample.navigationLibrary (Str "SXC..MLF")
        = Ok route
        /\ (2 <= length (waypoints _ route))%nat).
Proof.
  split.
  - destruct (Construction.construction_requires_two_waypoints
                Sample.NavigationLibrary Sample.LegModel_new Sample.directDivider
                Sample.navigationLibrary (Str "MLF")) as [Hfew _].
    eapply Hfew; [reflexivity | simpl; lia].
  - eexists. split; [reflexivity|].
    destruct (Construction.construction_requires_two_waypoints
                Sample.NavigationLibrary Sample.LegModel_new Sample.directDivider
                Sample.navigationLibrary (Str "SXC..MLF")) as [_ Hroute].
    destruct (Hroute _ eq_refl) as [_ Htwo]. exact Htwo.
Defined.

Lemma set_name_never_stores_argument_witness :
  set_name Sample.nodeScope "KLAX" (Sample.waypoint "ksfo" (-1))
  = (Throw (ReferenceError "name is not defined"), Sample.waypoint "ksfo" (-1))
  /\ set_name Sample.browserScope "KLAX" (Sample.waypoint "ksfo" (-1))
     = (Ok tt, Sample.waypoint "" (-1)).
Proof.
  destruct (WaypointFacts.set_name_never_stores_argument
              Sample.nodeScope (Sample.waypoint "ksfo" (-1)) "KLAX")
    as (_ & Hunbound & _).
  destruct (WaypointFacts.set_name_never_stores_argument
              Sample.browserScope (Sample.waypoint "ksfo" (-1)) "KLAX")
    as (_ & _ & Hbound).
  split; [apply Hunbound; reflexivity|].
  destruct (Hbound "" eq_refl) as [Hcall _]. exact Hcall.
Defined.

(** In a browser the call of the setter does not throw, and the stored
    identifier does not stay as it was. *)
Lemma set_name_in_browser :
  (set_name Sample.browserScope "KLAX" (Sample.waypoint "ksfo" (-1))).1 = Ok tt
  /\ _name (Sample.waypoint "ksfo" (-1)) = "ksfo"
  /\ _name (set_name Sample.browserScope "KLAX" (Sample.waypoint "ksfo" (-1))).2 = ""
  /\ _name (set_name Sample.browserScope "KLAX" (Sample.waypoint "ksfo" (-1))).2
     <> _name (Sample.waypoint "ksfo" (-1)).
Proof. repeat split. discriminate. Qed.

End Instances.

(** ** Current and next waypoint, and progress along the route *)

Module Progress.
Import Js Lodash Waypoint Route JsFacts.

Section Route.
Variable NavigationLibrary : Type.

Local Abbreviation RouteModel := (RouteModel NavigationLibrary).
Local Abbreviation legs := (_legCollection NavigationLibrary).
Local Abbreviation flown := (_previousLegCollection NavigationLibrary).

Lemma existsb_concat {A : Type} (predicate : A -> bool) (xss : list (list A)) :
  existsb predicate (concat xss) = existsb (existsb predicate) xss.
Proof.
  induction xss as [|xs xss IH]; [reflexivity|].
  simpl. now rewrite existsb_app, IH.
Qed.

(** The route has a waypoint of some name exactly when one of the
    waypoints that [waypoints] lists is named so. *)
Theorem hasWaypoint_waypoints (waypointName : string) (this : RouteModel) :
  hasWaypoint NavigationLibrary waypointName this
  = existsb (Leg.isNamed waypointName) (waypoints NavigationLibrary this).
Proof.
  rewrite Construction.waypoints_concat, existsb_concat.
  unfold hasWaypoint, Leg.hasWaypoint.
  induction (legs this) as [|leg rest IH]; [reflexivity|].
  simpl. now rewrite IH.
Qed.

(** On a route where every remaining leg has a waypoint left, the current
    and the next waypoint are the first two entries of [waypoints], and
    hasNextWaypoint says whether there is a second one. *)
Theorem current_and_next_waypoint (this : RouteModel) :
  legs this <> [] ->
  Forall (fun leg => Leg.waypoints leg <> []) (legs this) ->
  currentWaypoint NavigationLibrary this = Ok (waypoints NavigationLibrary this !! 0%nat)
  /\ hasNextWaypoint NavigationLibrary this
     = Ok (bool_decide (2 <= length (waypoints NavigationLibrary this))%nat)
  /\ nextWaypoint NavigationLibrary this = Ok (waypoints NavigationLibrary this !! 1%nat).
Proof.
  intros Hne Hall. rewrite Construction.waypoints_concat.
  unfold nextWaypoint, hasNextWaypoint, currentWaypoint, onNextLeg, nextLeg,
    currentLeg, hasNextLeg.
  destruct (legs this) as [|leg1 rest]; [contradiction|].
  apply Forall_cons in Hall as [H1 Hrest].
  unfold Leg.hasNextWaypoint, Leg.currentWaypoint, _first.
  destruct (Leg.waypoints leg1) as [|w1 [|w1' ws1]] eqn:Hw1; [contradiction | |].
  - destruct rest as [|leg2 rest].
    + simpl. rewrite ?Hw1. simpl. repeat split.
    + apply Forall_cons in Hrest as [H2 _].
      destruct (Leg.waypoints leg2) as [|w2 ws2] eqn:Hw2; [contradiction|].
      simpl. rewrite ?Hw1, ?Hw2. simpl. repeat split.
  - simpl. rewrite ?Hw1. simpl. repeat split.
Qed.

(** When the route has a next waypoint, skipToNextWaypoint does not throw
    and makes that waypoint the current one. *)
Theorem skipToNextWaypoint_reaches_next (this : RouteModel) (waypoint : WaypointModel) :
  nextWaypoint NavigationLibrary this = Ok (Some waypoint) ->
  (skipToNextWaypoint NavigationLibrary this).1 = Ok tt
  /\ currentWaypoint NavigationLibrary (skipToNextWaypoint NavigationLibrary this).2
     = Ok (Some waypoint).
Proof.
  unfold nextWaypoint, hasNextWaypoint, skipToNextWaypoint, skipToNextLeg,
    currentWaypoint, onNextLeg, nextLeg, onCurrentLeg, currentLeg, hasNextLeg.
  destruct (legs this) as [|leg1 rest] eqn:Hlegs; [discriminate|].
  unfold bind at 1 2.
  destruct (Leg.hasNextWaypoint leg1) eqn:Hnext.
  - simpl. rewrite ?Hnext.
    unfold Leg.hasNextWaypoint in Hnext. apply bool_decide_eq_true in Hnext.
    unfold Leg.currentWaypoint, Leg.skipToNextWaypoint, _first. simpl.
    destruct (Leg.waypoints leg1) as [|w1 [|w2 ws]]; simpl in *; try lia.
    intros [= <-]. split; reflexivity.
  - destruct rest as [|leg2 rest]; [discriminate|].
    simpl. rewrite ?Hnext.
    unfold moveLegsToPrevious, splice. rewrite Hlegs. simpl.
    destruct (Leg.currentWaypoint leg2); simpl; [|discriminate].
    intros [= <-]. split; reflexivity.
Qed.

(** skipToNextLeg makes the next leg the current one and puts the leg
    that was current behind the flown legs; without a next leg it changes
    nothing. *)
Theorem skipToNextLeg_promotes_nextLeg (this : RouteModel) :
  (forall current next,
      currentLeg NavigationLibrary this = Ok current ->
      nextLeg NavigationLibrary this = Some next ->
      let this' := (skipToNextLeg NavigationLibrary this).2 in
      currentLeg NavigationLibrary this' = Ok next
      /\ flown this' = flown this ++ [current]
      /\ flown this' ++ legs this' = flown this ++ legs this)
  /\ (nextLeg NavigationLibrary this = None ->
      skipToNextLeg NavigationLibrary this = (Ok tt, this)).
Proof.
  unfold skipToNextLeg, nextLeg, currentLeg, hasNextLeg, moveLegsToPrevious, splice.
  destruct (legs this) as [|leg1 [|leg2 rest]] eqn:Hlegs; simpl.
  - split; [discriminate | reflexivity].
  - split; [discriminate | reflexivity].
  - split; [|discriminate].
    intros current next [= <-] [= <-]. rewrite ?Hlegs. simpl.
    repeat split. now rewrite <- app_assoc.
Qed.

Lemma call_keeps_current_leg (c : Call) (this : RouteModel) :
  legs this <> [] ->
  (call NavigationLibrary c this).1 = Ok tt
  /\ legs (call NavigationLibrary c this).2 <> [].
Proof.
  intros Hne.
  assert (Hleg : forall that : RouteModel,
             legs that <> [] ->
             (skipToNextLeg NavigationLibrary that).1 = Ok tt
             /\ legs (skipToNextLeg NavigationLibrary that).2 <> []).
  { intros that Hthat.
    unfold skipToNextLeg, hasNextLeg, moveLegsToPrevious, splice.
    destruct (legs that) as [|leg1 [|leg2 rest]] eqn:Hlegs; [contradiction | |];
      simpl; rewrite ?Hlegs; split; try reflexivity; discriminate. }
  destruct c; simpl; [|now apply Hleg].
  unfold skipToNextWaypoint, onCurrentLeg, currentLeg.
  destruct (legs this) as [|leg1 rest] eqn:Hlegs; [contradiction|].
  destruct (Leg.hasNextWaypoint leg1); simpl.
  - split; [reflexivity | discriminate].
  - apply Hleg. now rewrite Hlegs.
Qed.

(** A route that has a current leg keeps one through any sequence of
    skipToNextWaypoint and skipToNextLeg calls, and none of these calls
    throws. *)
Theorem skips_keep_a_current_leg (calls : list Call) (this : RouteModel) :
  legs this <> [] ->
  legs (run NavigationLibrary calls this) <> []
  /\ forall c : Call,
       (call NavigationLibrary c (run NavigationLibrary calls this)).1 = Ok tt.
Proof.
  revert this. induction calls as [|c calls IH]; intros this Hne.
  - split; [exact Hne|]. intros c. now apply call_keeps_current_leg.
  - apply (IH (call NavigationLibrary c this).2).
    now apply call_keeps_current_leg.
Qed.

Variable DIRECT_SEGMENT_DIVIDER : string.

Lemma routeString_rewind (ls : list Leg.LegModel) :
  map Leg.routeString (map Leg.rewind ls) = map Leg.routeString ls.
Proof. rewrite map_map. reflexivity. Qed.

(** The full route string, flown legs and remaining legs together, is the
    same before and after any sequence of skipToNextWaypoint and
    skipToNextLeg calls. *)
Theorem fullRouteString_unchanged_by_skips (calls : list Call) (this : RouteModel) :
  fullRouteString NavigationLibrary DIRECT_SEGMENT_DIVIDER
    (run NavigationLibrary calls this)
  = fullRouteString NavigationLibrary DIRECT_SEGMENT_DIVIDER this.
Proof.
  destruct (Navigation.run_consumed NavigationLibrary calls this) as [k [Hf Hl]].
  unfold fullRouteString. rewrite !Reassembly.calculate_spec. f_equal.
  rewrite <- (routeString_rewind (flown _ ++ legs _)).
  rewrite <- (routeString_rewind (flown this ++ legs this)).
  f_equal. rewrite !map_app, Hf, Hl, <- app_assoc. now rewrite take_drop.
Qed.

(** reset() empties the remaining legs only.  After it the route string
    is empty and the bottom altitude is Infinity; reading the current leg,
    the current or the next waypoint and skipping to the next waypoint throw
    a TypeError, skipToNextLeg and skipToWaypointName change nothing; the
    flown legs are kept, and the full route string is that of the flown
    legs. *)
Theorem reset_leaves_flown_legs (INVALID_NUMBER : Z) (waypointName : string)
        (this : RouteModel) :
  let this' := (reset NavigationLibrary this).2 in
  legs this' = [] /\ flown this' = flown this
  /\ routeString NavigationLibrary DIRECT_SEGMENT_DIVIDER this' = ""
  /\ fullRouteString NavigationLibrary DIRECT_SEGMENT_DIVIDER this'
     = _calculateRouteStringForLegs DIRECT_SEGMENT_DIVIDER (flown this)
  /\ getBottomAltitude NavigationLibrary INVALID_NUMBER this' = Infinity
  /\ (exists message,
        currentLeg NavigationLibrary this' = Throw (TypeError message)
        /\ currentWaypoint NavigationLibrary this' = Throw (TypeError message)
        /\ hasNextWaypoint NavigationLibrary this' = Throw (TypeError message)
        /\ nextWaypoint NavigationLibrary this' = Throw (TypeError message)
        /\ skipToNextWaypoint NavigationLibrary this' = (Throw (TypeError message), this'))
  /\ skipToNextLeg NavigationLibrary this' = (Ok tt, this')
  /\ skipToWaypointName NavigationLibrary waypointName this' = (Ok false, this').
Proof.
  intros this'. subst this'. unfold reset, fullRouteString. simpl.
  rewrite app_nil_r. repeat split. eexists. repeat split.
Qed.

End Route.

End Progress.

(** ** More on route strings *)

Module RouteStrings.
Import Js Lodash Route JsFacts.

Local Abbreviation tokens_ok ts := (Forall (fun t => hasChar "." t = false) ts).

Lemma replace_cons (c : ascii) (s pattern replacement : string) :
  replace (String c s) pattern replacement
  = match strip_prefix pattern (String c s) with
    | Some rest => replacement +:+ rest
    | None => String c (replace s pattern replacement)
    end.
Proof. reflexivity. Qed.

Lemma indexOf_from_cons (c : ascii) (s needle : string) (i : Z) :
  indexOf_from (String c s) needle i
  = match strip_prefix needle (String c s) with
    | Some _ => i
    | None => indexOf_from s needle (i + 1)
    end.
Proof. reflexivity. Qed.

Lemma strip_prefix_dot (c : ascii) (s : string) :
  strip_prefix "." (String c s) = if Ascii.eqb "." c then Some s else None.
Proof. reflexivity. Qed.

Lemma replace_absent (s pattern replacement : string) :
  forall i, 0 <= i -> indexOf_from s pattern i = -1 -> replace s pattern replacement = s.
Proof.
  induction s as [|c s IH]; intros i Hi.
  - simpl. destruct (strip_prefix pattern ""); [lia | reflexivity].
  - rewrite indexOf_from_cons, replace_cons.
    destruct (strip_prefix pattern (String c s)); [lia|].
    intros H. now rewrite (IH (i + 1)) by (lia || exact H).
Qed.

Lemma replace_dot_absent (s replacement : string) :
  hasChar "." s = false -> replace s "." replacement = s.
Proof.
  induction s as [|c s IH]; [reflexivity|].
  rewrite hasChar_cons. intros [Hc Hs]%orb_false_iff.
  rewrite replace_cons, strip_prefix_dot, Hc. now rewrite IH.
Qed.

Lemma replace_first_dot (a r replacement : string) :
  hasChar "." a = false ->
  replace (a +:+ "." +:+ r) "." replacement = a +:+ replacement +:+ r.
Proof.
  induction a as [|c a IH].
  - intros _. rewrite !append_nil_l. reflexivity.
  - rewrite hasChar_cons. intros [Hc Ha]%orb_false_iff.
    rewrite !(append_cons c a), replace_cons, strip_prefix_dot, Hc. now rewrite IH.
Qed.

Lemma split_absent (s sep : string) :
  forall i, 0 <= i -> indexOf_from s sep i = -1 -> split s sep = [s].
Proof.
  destruct sep as [|a sep'].
  - intros i Hi. destruct s; simpl; lia.
  - unfold split. induction s as [|c s IH]; intros i Hi; [reflexivity|].
    rewrite indexOf_from_cons.
    change (split_from (String a sep') 0 (String c s))
      with (match strip_prefix (String a sep') (String c s) with
            | Some _ => "" :: split_from (String a sep')
                                 (String.length (String a sep') - 1) s
            | None => push_front c (split_from (String a sep') 0 s)
            end).
    destruct (strip_prefix (String a sep') (String c s)); [lia|].
    intros H. now rewrite (IH (i + 1)) by (lia || exact H).
Qed.

Lemma pairSegments_tokens (n : nat) :
  forall (toks : list string) (e : string),
    (length toks <= n)%nat ->
    hasChar "." e = false -> tokens_ok toks ->
    Forall (fun seg => (1 <= length (split seg ".") <= 3)%nat)
           (Grammar.pairSegments e toks).
Proof.
  induction n as [|n IH]; intros toks e Hlen He Htoks.
  { destruct toks; [constructor | simpl in Hlen; lia]. }
  destruct toks as [|name [|exit rest]]; [constructor | |].
  - apply Forall_cons in Htoks as [Hname _].
    change (Grammar.pairSegments e [name]) with [join [e; name] "."].
    constructor; [|constructor].
    rewrite split_join_tokens; [simpl; lia | discriminate | repeat constructor; assumption].
  - apply Forall_cons in Htoks as [Hname Htoks].
    apply Forall_cons in Htoks as [Hexit Hrest].
    change (Grammar.pairSegments e (name :: exit :: rest))
      with (join [e; name; exit] "." :: Grammar.pairSegments exit rest).
    constructor.
    + rewrite split_join_tokens;
        [simpl; lia | discriminate | repeat constructor; assumption].
    + apply IH; [simpl in Hlen; lia | assumption | assumption].
Qed.

Lemma chunkSegments_tokens (chunk : string) :
  Forall (fun seg => (1 <= length (split seg ".") <= 3)%nat) (Grammar.chunkSegments chunk).
Proof.
  unfold Grammar.chunkSegments. cbv zeta.
  pose proof (split_dot_nonempty chunk) as Hne.
  pose proof (split_dot_tokens chunk) as Hall.
  set (ts := split chunk ".") in *. clearbody ts.
  constructor.
  - destruct (Reassembly.tokens_merge "" ts Hne Hall) as [Hs _].
    rewrite Hs. rewrite length_take.
    assert (0 < length ts)%nat by (destruct ts; [contradiction | simpl; lia]).
    lia.
  - apply (pairSegments_tokens (length (drop 3 ts))); [lia | | now apply Forall_drop].
    destruct (last (take 3 ts)) as [e|] eqn:He; [|reflexivity].
    assert (Hin : e ∈ take 3 ts).
    { apply last_Some in He as [l' ->]. apply elem_of_app. right. constructor. }
    pose proof (Forall_take _ 3%nat _ Hall) as Hall3.
    rewrite Forall_forall in Hall3. now apply Hall3.
Qed.

Section Strings.
Variable NavigationLibrary : Type.
Variable DIRECT_SEGMENT_DIVIDER : string.

Local Abbreviation D := DIRECT_SEGMENT_DIVIDER.
Local Abbreviation RouteModel := (RouteModel NavigationLibrary).

Lemma divide_Ok (v : Value) (segments : list string) :
  _divideRouteStringIntoSegments D v = Ok segments ->
  exists routeString,
    v = Str routeString /\ hasSpace routeString = false
    /\ segments = Grammar.segments D routeString.
Proof.
  intros Hdiv.
  destruct (isSpaceFreeString v) eqn:Hv.
  - destruct v as [| |b|n|s|]; try discriminate.
    simpl in Hv. apply negb_true_iff in Hv.
    rewrite (Segmentation.divide_space_free D s Hv) in Hdiv.
    exists s. repeat split; [exact Hv | congruence].
  - destruct (Segmentation.divide_not_space_free D v Hv) as [m Hm]. congruence.
Qed.

(** Every segment that segmentation returns has one, two or three tokens
    between its dots, whatever the route string, and there is at least one
    segment when the direct divider is not empty. *)
Theorem segments_have_at_most_three_tokens (v : Value) (segments : list string) :
  _divideRouteStringIntoSegments D v = Ok segments ->
  Forall (fun segment => (1 <= length (split segment ".") <= 3)%nat) segments
  /\ (D <> "" -> segments <> []).
Proof.
  intros Hdiv. destruct (divide_Ok v segments Hdiv) as (s & _ & _ & ->).
  unfold Grammar.segments. split.
  - induction (split s D) as [|chunk chunks IH]; [constructor|].
    change (concat (map Grammar.chunkSegments (chunk :: chunks)))
      with (Grammar.chunkSegments chunk ++ concat (map Grammar.chunkSegments chunks)).
    apply Forall_app. split; [apply chunkSegments_tokens | exact IH].
  - intros HD. destruct D as [|a d'] eqn:Hsep; [contradiction|].
    pose proof (split_from_nonempty (String a d') 0 s) as Hne.
    unfold split. destruct (split_from (String a d') 0 s); [contradiction|].
    discriminate.
Qed.

(** A string with no space, no dot and no direct divider in it, the empty
    string included, is one segment by itself. *)
Theorem divide_single_fix (routeString : string) :
  hasSpace routeString = false ->
  hasChar "." routeString = false ->
  indexOf routeString D = -1 ->
  _divideRouteStringIntoSegments D (Str routeString) = Ok [routeString].
Proof.
  intros Hspace Hdot Hdivider.
  rewrite (Segmentation.divide_space_free D routeString Hspace). f_equal.
  unfold Grammar.segments.
  rewrite (split_absent routeString D 0) by (lia || exact Hdivider).
  change (concat (map Grammar.chunkSegments [routeString]))
    with (Grammar.chunkSegments routeString ++ []).
  rewrite app_nil_r. unfold Grammar.chunkSegments.
  now rewrite (split_token routeString Hdot).
Qed.

(** Reassembly goes leg by leg: nothing for no leg, the leg's route string
    for one leg, and one more leg behind a last one adds its route string
    without the entry fix when the last leg exits at that fix, and the direct
    divider and its route string otherwise. *)
Theorem calculate_leg_by_leg :
  _calculateRouteStringForLegs D [] = ""
  /\ (forall leg, _calculateRouteStringForLegs D [leg] = Leg.routeString leg)
  /\ (forall legs last leg,
        _calculateRouteStringForLegs D (legs ++ [last; leg])
        = _calculateRouteStringForLegs D (legs ++ [last])
          +:+ (if bool_decide (Grammar.entryFix (Leg.routeString leg)
                               = Grammar.exitFix (Leg.routeString last))
               then Grammar.withoutEntry (Leg.routeString leg)
               else D +:+ Leg.routeString leg)).
Proof.
  split; [reflexivity|]. split.
  - intros leg. rewrite Reassembly.calculate_spec. simpl. apply append_nil_r.
  - intros legs last leg. rewrite !Reassembly.calculate_spec, !map_app.
    simpl map.
    set (rl := Leg.routeString last). set (r := Leg.routeString leg).
    destruct (map Leg.routeString legs) as [|r0 rs].
    + simpl. now rewrite !append_nil_r.
    + change ((r0 :: rs) ++ [rl; r]) with (r0 :: (rs ++ [rl] ++ [r])).
      change ((r0 :: rs) ++ [rl]) with (r0 :: (rs ++ [rl])).
      unfold Grammar.joinSharingTransitions.
      rewrite app_assoc, (Reassembly.joinBehind_app D (rs ++ [rl]) [r]).
      rewrite last_snoc. simpl. now rewrite !append_nil_r, !append_assoc.
Qed.

(** getRouteStringWithSpaces replaces one divider of each kind only: on a
    route string with no direct divider in it, the first dot becomes a space
    and every later dot stays; a route string with no divider at all comes
    back as it is. *)
Theorem getRouteStringWithSpaces_first_only (this : RouteModel) :
  indexOf (routeString NavigationLibrary D this) D = -1 ->
  (forall a r,
      routeString NavigationLibrary D this = a +:+ "." +:+ r ->
      hasChar "." a = false ->
      getRouteStringWithSpaces NavigationLibrary D this = a +:+ " " +:+ r)
  /\ (hasChar "." (routeString NavigationLibrary D this) = false ->
      getRouteStringWithSpaces NavigationLibrary D this
      = routeString NavigationLibrary D this).
Proof.
  intros HD. unfold getRouteStringWithSpaces, PROCEDURE_OR_AIRWAY_SEGMENT_DIVIDER.
  rewrite (replace_absent _ D " " 0) by (lia || exact HD). split.
  - intros a r -> Ha. now apply replace_first_dot.
  - intros Hdot. now apply replace_dot_absent.
Qed.

End Strings.

End RouteStrings.

(** ** Generation of the legs *)

Module Generation.
Import Js Lodash Route JsFacts.

Lemma map_throwing_Ok {A B : Type} (f : A -> result B) (xs : list A) :
  forall ys, map_throwing f xs = Ok ys <-> Forall2 (fun x y => f x = Ok y) xs ys.
Proof.
  induction xs as [|x xs IH]; intros ys; simpl.
  - split; [intros [= <-]; constructor | intros H; inversion H; reflexivity].
  - split.
    + destruct (f x) as [y|] eqn:Hx; [|discriminate]. simpl.
      destruct (map_throwing f xs) as [ys'|]; [|discriminate]. simpl.
      intros [= <-]. constructor; [exact Hx | now apply IH].
    + intros H. inversion H as [|? y ? ys' Hx Hrest]; subst.
      rewrite Hx. simpl. apply IH in Hrest. now rewrite Hrest.
Qed.

Lemma map_throwing_Throw {A B : Type} (f : A -> result B)
      (before : list A) (x : A) (after : list A) (e : Error) :
  Forall (fun x => exists y, f x = Ok y) before ->
  f x = Throw e ->
  map_throwing f (before ++ x :: after) = Throw e.
Proof.
  intros Hbefore Hx. induction Hbefore as [|b before [y Hb] _ IH]; simpl.
  - now rewrite Hx.
  - now rewrite Hb, IH.
Qed.

Section Generate.
Variable NavigationLibrary : Type.
Variable LegModel_new : NavigationLibrary -> string -> result Leg.LegModel.
Variable DIRECT_SEGMENT_DIVIDER : string.

Local Abbreviation divide := (_divideRouteStringIntoSegments DIRECT_SEGMENT_DIVIDER).
Local Abbreviation generate :=
  (_generateLegsFromRouteString NavigationLibrary LegModel_new DIRECT_SEGMENT_DIVIDER).
Local Abbreviation construct :=
  (RouteModel_new NavigationLibrary LegModel_new DIRECT_SEGMENT_DIVIDER).

(** Generation is all or nothing.  The legs come out exactly when the
    constructor of a leg succeeds on every segment, one leg per segment in
    the order of the segments; when it throws on a segment and succeeded on
    all segments before it, generation and the constructor of the route
    throw that same error. *)
Theorem generate_all_or_nothing
    (navigationLibrary : NavigationLibrary) (v : Value) (segments : list string) :
  divide v = Ok segments ->
  (forall legs,
      generate navigationLibrary v = Ok legs
      <-> Forall2 (fun segment leg => LegModel_new navigationLibrary segment = Ok leg)
                  segments legs)
  /\ (forall before segment after error,
        segments = before ++ segment :: after ->
        Forall (fun s => exists leg, LegModel_new navigationLibrary s = Ok leg) before ->
        LegModel_new navigationLibrary segment = Throw error ->
        generate navigationLibrary v = Throw error
        /\ construct navigationLibrary v = Throw error).
Proof.
  intros Hdiv. unfold RouteModel_new, init, _generateLegsFromRouteString.
  rewrite Hdiv. cbn [bind _navigationLibrary]. split.
  - intros legs. apply map_throwing_Ok.
  - intros before segment after error -> Hbefore Hthrow.
    now rewrite (map_throwing_Throw _ _ _ _ _ Hbefore Hthrow).
Qed.

End Generate.

End Generation.

(** ** The bottom altitude *)

Module BottomAltitude.
Import Js Lodash Route.

Lemma Math_min_nil (args : list Z) : Math_min args = Infinity <-> args = [].
Proof.
  destruct args as [|z args]; [split; reflexivity|].
  split; [|discriminate]. unfold Math_min. simpl.
  destruct (fold_right _ _ args); discriminate.
Qed.

Lemma Math_min_least (args : list Z) :
  args <> [] ->
  exists m, Math_min args = Finite m /\ m ∈ args /\ forall z, z ∈ args -> m <= z.
Proof.
  induction args as [|z args IH]; [contradiction|]. intros _.
  destruct args as [|z' args].
  - exists z. repeat split; [constructor|].
    intros x Hx. apply list_elem_of_singleton in Hx. lia.
  - destruct IH as (m & Hm & Hin & Hleast); [discriminate|].
    exists (Z.min z m). split; [|split].
    + unfold Math_min in *. simpl fold_right in *. rewrite Hm. reflexivity.
    + destruct (Z.min_spec z m) as [[_ ->]|[_ ->]]; [constructor | now constructor].
    + intros x Hx. apply elem_of_cons in Hx as [->|Hx]; [lia|].
      specialize (Hleast x Hx). lia.
Qed.

Section Bottom.
Variable NavigationLibrary : Type.
Variable INVALID_NUMBER : Z.

Local Abbreviation RouteModel := (RouteModel NavigationLibrary).
Local Abbreviation legs := (_legCollection NavigationLibrary).
Local Abbreviation bottom := (getBottomAltitude NavigationLibrary INVALID_NUMBER).

Lemma without_nil (altitudes : list Z) :
  _without altitudes INVALID_NUMBER = [] <-> Forall (fun a => a = INVALID_NUMBER) altitudes.
Proof.
  unfold _without. induction altitudes as [|a altitudes IH]; [split; [constructor | reflexivity]|].
  rewrite filter_cons. destruct (decide (a <> INVALID_NUMBER)) as [Ha|Ha].
  - split; [discriminate|]. intros H. apply Forall_cons in H as [H _]. contradiction.
  - rewrite IH. split.
    + intros H. constructor; [|exact H]. destruct (decide (a = INVALID_NUMBER)); tauto.
    + intros H. now apply Forall_cons in H as [_ H].
Qed.

(** getBottomAltitude is Infinity exactly when every remaining leg reports
    the number that stands for no altitude (in particular on a route
    without legs).  Otherwise it is the bottom altitude of one of the legs,
    is not that number, and is at most the bottom altitude of every leg that
    reports another number.  It is never -Infinity. *)
Theorem getBottomAltitude_least (this : RouteModel) :
  (bottom this = Infinity
   <-> Forall (fun leg => Leg.getProcedureBottomAltitude leg = INVALID_NUMBER) (legs this))
  /\ (forall m,
        bottom this = Finite m ->
        m <> INVALID_NUMBER
        /\ (exists leg, leg ∈ legs this /\ Leg.getProcedureBottomAltitude leg = m)
        /\ forall leg,
             leg ∈ legs this ->
             Leg.getProcedureBottomAltitude leg <> INVALID_NUMBER ->
             m <= Leg.getProcedureBottomAltitude leg)
  /\ bottom this <> NegInfinity.
Proof.
  unfold getBottomAltitude, _map. cbv zeta.
  set (altitudes := map Leg.getProcedureBottomAltitude (legs this)).
  assert (Hmem : forall a, a ∈ _without altitudes INVALID_NUMBER
                           <-> a <> INVALID_NUMBER /\
                               exists leg, leg ∈ legs this
                                           /\ Leg.getProcedureBottomAltitude leg = a).
  { intros a. unfold _without. rewrite list_elem_of_filter. subst altitudes.
    rewrite list_elem_of_In, in_map_iff.
    split; intros [Ha (leg & H1 & H2)]; (split; [exact Ha|]); exists leg.
    - apply list_elem_of_In in H2. tauto.
    - apply list_elem_of_In in H1. tauto. }
  split; [|split].
  - rewrite Math_min_nil, without_nil. subst altitudes. now rewrite Forall_map.
  - intros m Hm.
    destruct (_without altitudes INVALID_NUMBER) as [|a rest] eqn:Hw; [discriminate|].
    destruct (Math_min_least (a :: rest)) as (m' & Hm' & Hin & Hleast); [discriminate|].
    rewrite Hm in Hm'. injection Hm' as <-.
    apply Hmem in Hin as [Hne Hleg]. split; [exact Hne|]. split; [exact Hleg|].
    intros leg Hleg' Hvalid. apply Hleast. apply Hmem. eauto.
  - destruct (_without altitudes INVALID_NUMBER) as [|a rest] eqn:Hw; [discriminate|].
    destruct (Math_min_least (a :: rest)) as (m' & Hm' & _); [discriminate|].
    rewrite Hm'. discriminate.
Qed.

End Bottom.

End BottomAltitude.

(** ** Replacing a procedure twice *)

Module ProcedureFacts.
Import Js Lodash Route JsFacts.

Lemma existsb_false_Forall {A : Type} (predicate : A -> bool) (xs : list A) :
  existsb predicate xs = false -> Forall (fun x => predicate x = false) xs.
Proof.
  induction xs as [|x xs IH]; simpl; [constructor|].
  intros [Hx Hxs]%orb_false_iff. constructor; [exact Hx | now apply IH].
Qed.

Section Twice.
Variable NavigationLibrary : Type.
Variable LegModel_new : NavigationLibrary -> string -> result Leg.LegModel.

Local Abbreviation RouteModel := (RouteModel NavigationLibrary).
Local Abbreviation legs := (_legCollection NavigationLibrary).
Local Abbreviation construct this := (LegModel_new (_navigationLibrary NavigationLibrary this)).
Local Abbreviation replaceArrival := (replaceArrivalProcedure NavigationLibrary LegModel_new).
Local Abbreviation replaceDeparture := (replaceDepartureProcedure NavigationLibrary LegModel_new).

(** What a successful replacement leaves in the route, for the tag
    [isTagged] and the place [insert] of a leg that replaces none. *)
Lemma replaced_legs (isTagged : Leg.LegModel -> bool) (new : Leg.LegModel)
      (ls : list Leg.LegModel) (insert : list Leg.LegModel) :
  (Forall (fun l => isTagged l = false) ls ->
   (if bool_decide (_findIndex ls isTagged = INVALID_INDEX) then insert
    else <[Z.to_nat (_findIndex ls isTagged) := new]> ls) = insert)
  /\ (forall before old after,
        ls = before ++ old :: after ->
        Forall (fun l => isTagged l = false) before ->
        isTagged old = true ->
        (if bool_decide (_findIndex ls isTagged = INVALID_INDEX) then insert
         else <[Z.to_nat (_findIndex ls isTagged) := new]> ls) = before ++ new :: after).
Proof.
  split.
  - intros Hnone. unfold _findIndex.
    rewrite (Procedures.findIndex_from_none _ _ _ Hnone).
    now rewrite bool_decide_eq_true_2.
  - intros before old after -> Hbefore Hold.
    destruct (Procedures.replace_at_first isTagged before old new after Hbefore Hold)
      as [Hindex Hinsert].
    now rewrite bool_decide_eq_false_2, Hinsert.
Qed.

Lemma arrival_result (routeString : string) (this : RouteModel) (new : Leg.LegModel) :
  construct this routeString = Ok new ->
  replaceArrival routeString this
  = (Ok true,
     with_legs NavigationLibrary
       (if bool_decide (_findIndex (legs this) Leg.isStarLeg = INVALID_INDEX)
        then legs this ++ [new]
        else <[Z.to_nat (_findIndex (legs this) Leg.isStarLeg) := new]> (legs this))
       this).
Proof.
  intros H. unfold replaceArrivalProcedure. rewrite H.
  now destruct (bool_decide _).
Qed.

Lemma departure_result (routeString : string) (this : RouteModel) (new : Leg.LegModel) :
  construct this routeString = Ok new ->
  replaceDeparture routeString this
  = (Ok true,
     with_legs NavigationLibrary
       (if bool_decide (_findIndex (legs this) Leg.isSidLeg = INVALID_INDEX)
        then new :: legs this
        else <[Z.to_nat (_findIndex (legs this) Leg.isSidLeg) := new]> (legs this))
       this).
Proof.
  intros H. unfold replaceDepartureProcedure. rewrite H.
  now destruct (bool_decide _).
Qed.

(** The last replacement wins.  When the leg built from the first route
    string is a STAR leg, replacing the arrival procedure by it and then by
    a second leg leaves the route as replacing by the second leg alone does:
    the route grows by at most one leg however often the arrival is
    replaced.  The same holds for departures and SID legs. *)
Theorem last_replacement_wins
    (first second : string) (this : RouteModel) (new1 new2 : Leg.LegModel) :
  construct this first = Ok new1 ->
  construct this second = Ok new2 ->
  (Leg.isStarLeg new1 = true ->
   replaceArrival second (replaceArrival first this).2 = replaceArrival second this)
  /\ (Leg.isSidLeg new1 = true ->
      replaceDeparture second (replaceDeparture first this).2
      = replaceDeparture second this).
Proof.
  intros H1 H2.
  rewrite (arrival_result first this new1 H1), (arrival_result second this new2 H2).
  rewrite (departure_result first this new1 H1), (departure_result second this new2 H2).
  cbn [snd].
  split; intros Htag.
  - destruct (existsb Leg.isStarLeg (legs this)) eqn:Hex.
    + destruct (Navigation.existsb_first _ _ Hex) as (before & old & after & Hl & Hb & Ho).
      destruct (replaced_legs Leg.isStarLeg new1 (legs this) (legs this ++ [new1]))
        as [_ Hr1].
      destruct (replaced_legs Leg.isStarLeg new2 (legs this) (legs this ++ [new2]))
        as [_ Hr2].
      rewrite (Hr1 _ _ _ Hl Hb Ho), (Hr2 _ _ _ Hl Hb Ho).
      rewrite (arrival_result second (with_legs NavigationLibrary _ this) new2 H2).
      cbn [with_legs _legCollection _navigationLibrary _previousLegCollection].
      destruct (replaced_legs Leg.isStarLeg new2 (before ++ new1 :: after)
                  ((before ++ new1 :: after) ++ [new2])) as [_ Hr3].
      now rewrite (Hr3 _ _ _ eq_refl Hb Htag).
    + apply existsb_false_Forall in Hex.
      destruct (replaced_legs Leg.isStarLeg new1 (legs this) (legs this ++ [new1]))
        as [Hr1 _].
      destruct (replaced_legs Leg.isStarLeg new2 (legs this) (legs this ++ [new2]))
        as [Hr2 _].
      rewrite (Hr1 Hex), (Hr2 Hex).
      rewrite (arrival_result second (with_legs NavigationLibrary _ this) new2 H2).
      cbn [with_legs _legCollection _navigationLibrary _previousLegCollection].
      destruct (replaced_legs Leg.isStarLeg new2 (legs this ++ [new1])
                  ((legs this ++ [new1]) ++ [new2])) as [_ Hr3].
      now rewrite (Hr3 (legs this) new1 [] eq_refl Hex Htag).
  - destruct (existsb Leg.isSidLeg (legs this)) eqn:Hex.
    + destruct (Navigation.existsb_first _ _ Hex) as (before & old & after & Hl & Hb & Ho).
      destruct (replaced_legs Leg.isSidLeg new1 (legs this) (new1 :: legs this))
        as [_ Hr1].
      destruct (replaced_legs Leg.isSidLeg new2 (legs this) (new2 :: legs this))
        as [_ Hr2].
      rewrite (Hr1 _ _ _ Hl Hb Ho), (Hr2 _ _ _ Hl Hb Ho).
      rewrite (departure_result second (with_legs NavigationLibrary _ this) new2 H2).
      cbn [with_legs _legCollection _navigationLibrary _previousLegCollection].
      destruct (replaced_legs Leg.isSidLeg new2 (before ++ new1 :: after)
                  (new2 :: before ++ new1 :: after)) as [_ Hr3].
      now rewrite (Hr3 _ _ _ eq_refl Hb Htag).
    + apply existsb_false_Forall in Hex.
      destruct (replaced_legs Leg.isSidLeg new1 (legs this) (new1 :: legs this))
        as [Hr1 _].
      destruct (replaced_legs Leg.isSidLeg new2 (legs this) (new2 :: legs this))
        as [Hr2 _].
      rewrite (Hr1 Hex), (Hr2 Hex).
      rewrite (departure_result second (with_legs NavigationLibrary _ this) new2 H2).
      cbn [with_legs _legCollection _navigationLibrary _previousLegCollection].
      destruct (replaced_legs Leg.isSidLeg new2 (new1 :: legs this)
                  (new2 :: new1 :: legs this)) as [_ Hr3].
      now rewrite (Hr3 [] new1 (legs this) eq_refl ltac:(constructor) Htag).
Qed.

End Twice.

End ProcedureFacts.

(** ** More on waypoints *)

Module WaypointLife.
Import Js Waypoint JsFacts.

Lemma indexOf_from_found (a needle b : string) :
  forall i, 0 <= i -> indexOf_from (a +:+ needle +:+ b) needle i <> -1.
Proof.
  induction a as [|c a IH]; intros i Hi.
  - rewrite append_nil_l.
    pose proof (strip_prefix_append needle b) as Hp.
    destruct (needle +:+ b); simpl; rewrite Hp; lia.
  - rewrite append_cons, RouteStrings.indexOf_from_cons.
    destruct (strip_prefix needle (String c (a +:+ needle +:+ b))); [lia|].
    apply IH. lia.
Qed.

(** A waypoint has no restriction exactly when all four restriction
    fields hold -1; it has one as soon as it has an altitude or a speed
    restriction. *)
Theorem restriction_symmetry (this : WaypointModel) :
  (hasRestriction this = true
   <-> hasAltitudeRestriction this = true \/ hasSpeedRestriction this = true)
  /\ (hasRestriction this = false
      <-> altitudeMaximum this = -1 /\ altitudeMinimum this = -1
          /\ speedMaximum this = -1 /\ speedMinimum this = -1).
Proof.
  unfold hasRestriction, hasAltitudeRestriction, hasSpeedRestriction. split.
  - apply orb_true_iff.
  - rewrite !orb_false_iff, !bool_decide_eq_false.
    split.
    + intros [[H1 H2] [H3 H4]].
      repeat split; apply dec_stable; assumption.
    + intros (H1 & H2 & H3 & H4). repeat split; intros H; now apply H.
Qed.

(** destroy() twice is destroy() once.  A destroyed waypoint has no
    restriction and is no hold, and reading its relative position throws a
    TypeError, the position being null. *)
Theorem destroy_once (this : WaypointModel) :
  destroy (destroy this) = destroy this
  /\ hasRestriction (destroy this) = false
  /\ isHold (destroy this) = false
  /\ exists message, get_relativePosition (destroy this) = Throw (TypeError message).
Proof. repeat split. eexists. reflexivity. Qed.

(** updateWaypointWithHoldProps marks the waypoint as a hold and touches
    nothing but the hold properties: name, position, restrictions, timer and
    the fly-over and vector flags stay.  Of two updates the later one
    wins. *)
Theorem hold_props_update
    (heading heading' : Z) (turn turn' legLength legLength' : string)
    (this : WaypointModel) :
  let held := updateWaypointWithHoldProps heading turn legLength this in
  isHold held = true
  /\ _holdingPatternInboundHeading held = heading
  /\ _turnDirection held = turn /\ _legLength held = legLength
  /\ _name held = _name this /\ _positionModel held = _positionModel this
  /\ hasRestriction held = hasRestriction this
  /\ timer held = timer this
  /\ _isFlyOverWaypoint held = _isFlyOverWaypoint this
  /\ _isVector held = _isVector this
  /\ updateWaypointWithHoldProps heading' turn' legLength' held
     = updateWaypointWithHoldProps heading' turn' legLength' this.
Proof. repeat split. Qed.

Section DisplayName.
Variable RNAV_WAYPOINT_PREFIX : string.
Variable RNAV_WAYPOINT_DISPLAY_NAME : string.

Local Abbreviation name := (get_name RNAV_WAYPOINT_PREFIX RNAV_WAYPOINT_DISPLAY_NAME).

(** The name getter answers with the display name as soon as the marker
    occurs anywhere in the identifier, not only at its start, and with the
    identifier itself when the marker does not occur in it. *)
Theorem name_hides_marked_identifier (this : WaypointModel) :
  (forall before after,
      _name this = before +:+ RNAV_WAYPOINT_PREFIX +:+ after ->
      name this = RNAV_WAYPOINT_DISPLAY_NAME)
  /\ (indexOf (_name this) RNAV_WAYPOINT_PREFIX = -1 -> name this = _name this).
Proof.
  unfold get_name, indexOf. split.
  - intros before after ->.
    rewrite bool_decide_eq_true_2; [reflexivity|].
    apply indexOf_from_found. lia.
  - intros H. now rewrite bool_decide_eq_false_2 by (intros Hne; now apply Hne).
Qed.

End DisplayName.

End WaypointLife.

(** ** These properties on the sample data *)

Module MoreInstances.
Import Js Lodash Waypoint Route.

Lemma current_and_next_waypoint_witness :
  currentWaypoint _ SampleRoute.route = Ok (Some (Sample.waypoint "ksfo28r" (-1)))
  /\ hasNextWaypoint _ SampleRoute.route = Ok true
  /\ nextWaypoint _ SampleRoute.route = Ok (Some (Sample.waypoint "offsh" (-1)))
  /\ nextWaypoint _ SampleRoute.flownRoute = Ok None.
Proof.
  destruct (Progress.current_and_next_waypoint _ SampleRoute.route)
    as (Hcurrent & Hhas & Hnext); [discriminate | repeat constructor; discriminate |].
  destruct (Progress.current_and_next_waypoint _ SampleRoute.flownRoute)
    as (_ & _ & Hlast); [discriminate | repeat constructor; discriminate |].
  repeat split; assumption.
Defined.

Lemma skipToNextWaypoint_reaches_next_witness :
  nextWaypoint _ SampleRoute.route = Ok (Some (Sample.waypoint "offsh" (-1)))
  /\ currentWaypoint _ (skipToNextWaypoint _ SampleRoute.route).2
     = Ok (Some (Sample.waypoint "offsh" (-1))).
Proof.
  split; [reflexivity|].
  apply (Progress.skipToNextWaypoint_reaches_next _ SampleRoute.route). reflexivity.
Defined.

Lemma skipToNextLeg_promotes_nextLeg_witness :
  currentLeg _ (skipToNextLeg _ SampleRoute.route).2 = Ok SampleRoute.airway
  /\ _previousLegCollection _ (skipToNextLeg _ SampleRoute.route).2 = [SampleRoute.departure]
  /\ skipToNextLeg _ SampleRoute.flownRoute = (Ok tt, SampleRoute.flownRoute).
Proof.
  destruct (Progress.skipToNextLeg_promotes_nextLeg _ SampleRoute.route) as [Hnext _].
  destruct (Progress.skipToNextLeg_promotes_nextLeg _ SampleRoute.flownRoute) as [_ Hlast].
  destruct (Hnext SampleRoute.departure SampleRoute.airway eq_refl eq_refl)
    as (Hcurrent & Hflown & _).
  split; [exact Hcurrent|]. split; [exact Hflown|]. apply Hlast. reflexivity.
Defined.

Lemma skips_keep_a_current_leg_witness :
  _legCollection _ (run _ [SkipToNextLeg; SkipToNextLeg; SkipToNextLeg; SkipToNextWaypoint]
                        SampleRoute.route)
  <> [].
Proof.
  apply (Progress.skips_keep_a_current_leg _
           [SkipToNextLeg; SkipToNextLeg; SkipToNextLeg; SkipToNextWaypoint]
           SampleRoute.route).
  discriminate.
Defined.

Lemma segments_have_at_most_three_tokens_witness :
  _divideRouteStringIntoSegments Sample.directDivider
    (Str "KSFO28R.OFFSH9.SXC.V458.IPL.J2.MLF..KLAS07R")
  = Ok ["KSFO28R.OFFSH9.SXC"; "SXC.V458.IPL"; "IPL.J2.MLF"; "KLAS07R"]
  /\ Forall (fun segment => (1 <= length (split segment ".") <= 3)%nat)
            ["KSFO28R.OFFSH9.SXC"; "SXC.V458.IPL"; "IPL.J2.MLF"; "KLAS07R"].
Proof.
  split; [reflexivity|].
  apply (RouteStrings.segments_have_at_most_three_tokens Sample.directDivider
           (Str "KSFO28R.OFFSH9.SXC.V458.IPL.J2.MLF..KLAS07R")).
  reflexivity.
Defined.

Lemma divide_single_fix_witness :
  _divideRouteStringIntoSegments Sample.directDivider (Str "MLF") = Ok ["MLF"]
  /\ _divideRouteStringIntoSegments Sample.directDivider (Str "") = Ok [""].
Proof.
  split; apply RouteStrings.divide_single_fix; reflexivity.
Defined.

Lemma getRouteStringWithSpaces_first_only_witness :
  routeString _ Sample.directDivider SampleRoute.shortRoute = "KSFO28R.OFFSH9.SXC.V458.IPL"
  /\ getRouteStringWithSpaces _ Sample.directDivider SampleRoute.shortRoute
     = "KSFO28R OFFSH9.SXC.V458.IPL".
Proof.
  split; [reflexivity|].
  destruct (RouteStrings.getRouteStringWithSpaces_first_only
              _ Sample.directDivider SampleRoute.shortRoute eq_refl) as [Hfirst _].
  apply (Hfirst "KSFO28R" "OFFSH9.SXC.V458.IPL"); reflexivity.
Defined.

Lemma generate_all_or_nothing_witness :
  _generateLegsFromRouteString _ Sample.LegModel_new Sample.directDivider
    Sample.navigationLibrary (Str "SXC..KLAX..MLF")
  = Throw (LookupError "KLAX")
  /\ RouteModel_new _ Sample.LegModel_new Sample.directDivider
       Sample.navigationLibrary (Str "SXC..KLAX..MLF")
     = Throw (LookupError "KLAX").
Proof.
  destruct (Generation.generate_all_or_nothing _ Sample.LegModel_new Sample.directDivider
              Sample.navigationLibrary (Str "SXC..KLAX..MLF") ["SXC"; "KLAX"; "MLF"]
              eq_refl) as [_ Hthrow].
  apply (Hthrow ["SXC"] "KLAX" ["MLF"] (LookupError "KLAX")); [reflexivity | | reflexivity].
  repeat constructor. eexists. reflexivity.
Defined.

Lemma getBottomAltitude_least_witness :
  getBottomAltitude _ (-1) SampleRoute.route = Finite 3000
  /\ 3000 <> -1
  /\ 3000 <= Leg.getProcedureBottomAltitude SampleRoute.airway.
Proof.
  destruct (BottomAltitude.getBottomAltitude_least _ (-1) SampleRoute.route)
    as (_ & Hfinite & _).
  destruct (Hfinite 3000 eq_refl) as (Hvalid & _ & Hleast).
  split; [reflexivity|]. split; [exact Hvalid|].
  apply Hleast; [|discriminate].
  apply list_elem_of_further, list_elem_of_here.
Defined.

Lemma last_replacement_wins_witness :
  exists star1 star2,
    Sample.LegModel_new Sample.navigationLibrary "MLF.GRNPA1.KLAS07R" = Ok star1
    /\ Sample.LegModel_new Sample.navigationLibrary "IPL.GRNPA1.KLAS07R" = Ok star2
    /\ Leg.isStarLeg star1 = true
    /\ replaceArrivalProcedure _ Sample.LegModel_new "IPL.GRNPA1.KLAS07R"
         (replaceArrivalProcedure _ Sample.LegModel_new "MLF.GRNPA1.KLAS07R"
            SampleRoute.route).2
       = replaceArrivalProcedure _ Sample.LegModel_new "IPL.GRNPA1.KLAS07R"
           SampleRoute.route.
Proof.
  eexists _, _. split; [reflexivity|]. split; [reflexivity|]. split; [reflexivity|].
  destruct (ProcedureFacts.last_replacement_wins _ Sample.LegModel_new
              "MLF.GRNPA1.KLAS07R" "IPL.GRNPA1.KLAS07R" SampleRoute.route _ _
              eq_refl eq_refl) as [Harrival _].
  apply Harrival. reflexivity.
Defined.

Lemma restriction_symmetry_witness :
  hasRestriction SampleRoute.holdWaypoint = true
  /\ hasRestriction (Sample.waypoint "mlf" (-1)) = false.
Proof.
  destruct (WaypointLife.restriction_symmetry SampleRoute.holdWaypoint) as [[_ Hany] _].
  destruct (WaypointLife.restriction_symmetry (Sample.waypoint "mlf" (-1))) as [_ [_ Hnone]].
  split; [apply Hany; left; reflexivity | apply Hnone; repeat split].
Defined.

Lemma name_hides_marked_identifier_witness :
  get_name "_" "RNAV" (Sample.waypoint "_n36w115" (-1)) = "RNAV"
  /\ get_name "_" "RNAV" (Sample.waypoint "gps_1" (-1)) = "RNAV"
  /\ get_name "_" "RNAV" (Sample.waypoint "mlf" (-1)) = "mlf".
Proof.
  destruct (WaypointLife.name_hides_marked_identifier "_" "RNAV"
              (Sample.waypoint "_n36w115" (-1))) as [Hstart _].
  destruct (WaypointLife.name_hides_marked_identifier "_" "RNAV"
              (Sample.waypoint "gps_1" (-1))) as [Hinside _].
  destruct (WaypointLife.name_hides_marked_identifier "_" "RNAV"
              (Sample.waypoint "mlf" (-1))) as [_ Habsent].
  split; [apply (Hstart "" "n36w115"); reflexivity|].
  split; [apply (Hinside "gps" "1"); reflexivity | apply Habsent; reflexivity].
Defined.

End MoreInstances.
